(** * Object-tracking client: stream session and overlay renderer

    A shallow embedding of the two core pieces of the browser client:

    - the [useObjectTracker] hook ([app/hooks/use-object-tracker.ts]), which
      owns the WebSocket to the tracking service, and
    - the [draw] callback of the [TrackingCanvas] component, which paints the
      latest tracked objects over the video.

    React state, refs and the browser objects the hook touches (sockets and
    interval timers) are threaded explicitly through a [State] record.  The
    canvas is modelled as a recording double: [draw] returns the list of
    context calls it performs.

    JavaScript numbers are binary64 floating-point numbers.  Integers
    ([Date.now()], counters, pixel dimensions, ids) are modelled as [Z] or
    [N] and every other finite number by its value, a canonical rational
    [Qc]; arithmetic on them is carried out exactly.  Where the code turns
    a number into text -- the id and the percentage of a label -- the
    rounding of binary64 decides what is printed, and it is modelled:
    [double] rounds to the nearest binary64 number, [times] is the
    multiplication of the language, [Number_toString] and [toFixed0] are
    its two conversions to text.  Console logging is left out. *)

From Stdlib Require Import QArith Qround Qcanon Qabs.
From stdpp Require Import base numbers option list gmap strings pretty.

Local Open Scope Z_scope.

(** ** Numbers *)

Definition num := Qc.

Definition num_of_Z (z : Z) : num := Q2Qc (inject_Z z).
Definition num_of_N (n : N) : num := num_of_Z (Z.of_N n).

(** [Math.round]: nearest integer, ties towards +infinity. *)
Definition Math_round (x : num) : Z := Qfloor (this x + (1 # 2))%Q.

(** [Math.min] on two finite numbers. *)
Definition Math_min (x y : num) : num := if Qc_lt_dec y x then y else x.

(** [x || 1] on a pixel dimension: [0] is the only falsy value. *)
Definition or_one (n : N) : N := if (n =? 0)%N then 1%N else n.

(** *** Binary64 rounding *)

(** A number of the language: a finite one, given by its value, an infinity
    or [NaN]. *)
Inductive Number :=
  | Finite (x : num)
  | Infinity (negative : bool)
  | NaN.

(** [2^e], for any integer [e]. *)
Definition pow2 (e : Z) : Q :=
  if e <? 0 then 1 # Z.to_pos (2 ^ (- e)) else inject_Z (2 ^ e).

(** The integer nearest to [q], the even one on a tie. *)
Definition round_half_even (q : Q) : Z :=
  let f := Qfloor q in
  match (q - inject_Z f ?= 1 # 2)%Q with
  | Lt => f
  | Gt => f + 1
  | Eq => if Z.even f then f else f + 1
  end.

(** The exponent [e] with [2^e <= |q| < 2^(e+1)], for [q] other than 0. *)
Definition binade (q : Q) : Z :=
  let e := Z.log2 (Z.abs (Qnum q)) - Z.log2 (Zpos (Qden q)) in
  if Qle_bool (pow2 e) (Qabs q) then e else e - 1.

(** The binary64 number nearest to the real [q], the one with an even
    significand on a tie: 53 significant bits, no bit below [2^-1074], an
    infinity from [2^1024] on.  It is what reading a numeric literal and
    every arithmetic operation yield for the exact result [q]. *)
Definition double (q : Q) : Number :=
  if Qeq_bool q 0 then Finite (num_of_Z 0)
  else
    let ulp := pow2 (Z.max (binade q - 52) (-1074)) in
    let r := (inject_Z (round_half_even (q / ulp)) * ulp)%Q in
    if Qle_bool (pow2 1024) (Qabs r) then Infinity (negb (Qle_bool 0 q))
    else Finite (Q2Qc r).

(** [x * y]. *)
Definition times (x y : Number) : Number :=
  match x, y with
  | Finite a, Finite b => double (this a * this b)
  | Finite a, Infinity n | Infinity n, Finite a =>
      if Qeq_bool (this a) 0 then NaN
      else Infinity (xorb n (negb (Qle_bool 0 (this a))))
  | Infinity n, Infinity m => Infinity (xorb n m)
  | NaN, _ | _, NaN => NaN
  end.

(** *** Numbers as text *)

(** Whether the decimal [c] reads back as the binary64 integer [v]. *)
Definition reads_as (v c : Z) : bool :=
  match double (inject_Z c) with
  | Finite r => Qeq_bool (this r) (inject_Z v)
  | _ => false
  end.

(** The [k]-digit significand [s] for which [s * 10^(n-k)] reads back as
    [v], if there is one: the one nearest to [v], the even one on a tie. *)
Definition significand (v n k : Z) : option Z :=
  let p := 10 ^ (n - k) in
  let lo := v / p in
  let hi := lo + 1 in
  match reads_as v (lo * p), reads_as v (hi * p) with
  | true, true =>
      let below := v - lo * p in
      let above := hi * p - v in
      if below <? above then Some lo
      else if above <? below then Some hi
      else if Z.even lo then Some lo else Some hi
  | true, false => Some lo
  | false, true => Some hi
  | false, false => None
  end.

(** The shortest significand, with its number of digits, trying [k],
    [k + 1], ... in turn.  Seventeen digits always suffice for a binary64
    number; should none be found, all [n] digits of [v] are kept. *)
Fixpoint shortest (fuel : nat) (v n k : Z) : Z * Z :=
  match fuel with
  | O => (v, n)
  | S fuel' =>
      match significand v n k with
      | Some s => (s, k)
      | None => shortest fuel' v n (k + 1)
      end
  end.

Fixpoint zeros (n : nat) : string :=
  match n with
  | O => EmptyString
  | S n' => "0" +:+ zeros n'
  end.

(** [Number::toString] on a positive binary64 integer [v]: the fewest digits
    that read back as [v], padded with zeros up to 21 digits and in
    exponential notation beyond. *)
Definition digits_of (v : Z) : string :=
  let n0 := Z.of_nat (String.length (pretty v)) in
  let '(s0, k0) := shortest 17 v n0 1 in
  let '(s, k, n) := if s0 =? 10 ^ k0 then (1, 1, n0 + 1) else (s0, k0, n0) in
  if n <=? 21 then pretty s +:+ zeros (Z.to_nat (n - k))
  else
    match pretty s with
    | String d rest =>
        String d (if k =? 1 then EmptyString else "." +:+ rest)
        +:+ "e+" +:+ pretty (n - 1)
    | EmptyString => EmptyString
    end.

(** [`${z}`] for an integer [z], read as a binary64 number first. *)
Definition Number_toString (z : Z) : string :=
  match double (inject_Z z) with
  | Finite r =>
      let v := Qfloor (this r) in
      if v =? 0 then "0"
      else if v <? 0 then "-" +:+ digits_of (- v)
      else digits_of v
  | Infinity negative => if negative then "-Infinity" else "Infinity"
  | NaN => "NaN"
  end.

(** [x.toFixed(0)]: the sign is split off first; a magnitude below [10^21]
    is rounded to the nearest integer, the larger one on a tie, and printed
    in full; any other goes through [Number::toString]. *)
Definition toFixed0 (x : Number) : string :=
  let magnitude (y : num) :=
    if Qle_bool (inject_Z (10 ^ 21)) (this y)
    then Number_toString (Qfloor (this y))
    else pretty (Math_round y) in
  match x with
  | Finite x =>
      if Qc_lt_dec x (num_of_Z 0) then "-" +:+ magnitude (- x)%Qc
      else magnitude x
  | Infinity negative => if negative then "-Infinity" else "Infinity"
  | NaN => "NaN"
  end.

Arguments num_of_Z : simpl never.
Arguments Math_round : simpl never.
Arguments Math_min : simpl never.
Arguments pow2 : simpl never.
Arguments round_half_even : simpl never.
Arguments binade : simpl never.
Arguments double : simpl never.
Arguments times : simpl never.
Arguments Number_toString : simpl never.
Arguments toFixed0 : simpl never.

(** ** Data model ([app/types/tracking.ts]) *)

Record Point := mkPoint { px : num; py : num }.

Record TrackedObject := mkTrackedObject {
  id : Z;
  bbox : num * num * num * num;
  class : string;
  confidence : num;
  trajectory : option (list Point)
}.

Record TrackingConfig := mkTrackingConfig {
  wsUrl : string;
  apiUrl : string;
  confidenceThreshold : option num
}.

(** ** The WebSocket and timer objects of the browser *)

Inductive ReadyState := CONNECTING | OPEN | CLOSING | CLOSED.

Global Instance ReadyState_eq_dec : EqDecision ReadyState.
Proof. solve_decision. Defined.

(** Messages the hook puts on the wire. *)
Inductive Outbound :=
  | Ping
  | Frame (image : string) (timestamp : Z) (frame_id : Z).

(** A socket together with the record of what was handed to [send]. *)
Record WebSocket := mkWebSocket {
  url : string;
  readyState : ReadyState;
  sent : list Outbound
}.

(** A parsed inbound payload, restricted to the fields the handler reads.
    A field is [None] when the JSON object does not carry it. *)
Record Inbound := mkInbound {
  msg_type : option string;
  msg_error : option string;
  msg_objects : option (list TrackedObject)
}.

(** ** Hook state

    The five [useState] cells, the four [useRef] cells, and the part of the
    browser the closures reach: the sockets created so far (a socket is named
    by its index), the live interval timers (each maps to the socket its
    callback closed over) and the next timer id. *)

Record State := mkState {
  trackedObjects : list TrackedObject;
  isProcessing : bool;
  isConnected : bool;
  fps : Z;
  error : option string;
  wsRef : option nat;
  frameCountRef : Z;
  lastTimeRef : Z;
  pingIntervalRef : option positive;
  sockets : list WebSocket;
  intervals : gmap positive nat;
  nextTimer : positive
}.

Definition setTrackedObjects v (s : State) : State :=
  mkState v (isProcessing s) (isConnected s) (fps s) (error s) (wsRef s)
    (frameCountRef s) (lastTimeRef s) (pingIntervalRef s) (sockets s)
    (intervals s) (nextTimer s).
Definition setIsProcessing v (s : State) : State :=
  mkState (trackedObjects s) v (isConnected s) (fps s) (error s) (wsRef s)
    (frameCountRef s) (lastTimeRef s) (pingIntervalRef s) (sockets s)
    (intervals s) (nextTimer s).
Definition setIsConnected v (s : State) : State :=
  mkState (trackedObjects s) (isProcessing s) v (fps s) (error s) (wsRef s)
    (frameCountRef s) (lastTimeRef s) (pingIntervalRef s) (sockets s)
    (intervals s) (nextTimer s).
Definition setFps v (s : State) : State :=
  mkState (trackedObjects s) (isProcessing s) (isConnected s) v (error s)
    (wsRef s) (frameCountRef s) (lastTimeRef s) (pingIntervalRef s)
    (sockets s) (intervals s) (nextTimer s).
Definition setError v (s : State) : State :=
  mkState (trackedObjects s) (isProcessing s) (isConnected s) (fps s) v
    (wsRef s) (frameCountRef s) (lastTimeRef s) (pingIntervalRef s)
    (sockets s) (intervals s) (nextTimer s).
Definition set_wsRef v (s : State) : State :=
  mkState (trackedObjects s) (isProcessing s) (isConnected s) (fps s)
    (error s) v (frameCountRef s) (lastTimeRef s) (pingIntervalRef s)
    (sockets s) (intervals s) (nextTimer s).
Definition set_frameCountRef v (s : State) : State :=
  mkState (trackedObjects s) (isProcessing s) (isConnected s) (fps s)
    (error s) (wsRef s) v (lastTimeRef s) (pingIntervalRef s) (sockets s)
    (intervals s) (nextTimer s).
Definition set_lastTimeRef v (s : State) : State :=
  mkState (trackedObjects s) (isProcessing s) (isConnected s) (fps s)
    (error s) (wsRef s) (frameCountRef s) v (pingIntervalRef s) (sockets s)
    (intervals s) (nextTimer s).
Definition set_pingIntervalRef v (s : State) : State :=
  mkState (trackedObjects s) (isProcessing s) (isConnected s) (fps s)
    (error s) (wsRef s) (frameCountRef s) (lastTimeRef s) v (sockets s)
    (intervals s) (nextTimer s).
Definition set_sockets v (s : State) : State :=
  mkState (trackedObjects s) (isProcessing s) (isConnected s) (fps s)
    (error s) (wsRef s) (frameCountRef s) (lastTimeRef s)
    (pingIntervalRef s) v (intervals s) (nextTimer s).
Definition set_intervals v (s : State) : State :=
  mkState (trackedObjects s) (isProcessing s) (isConnected s) (fps s)
    (error s) (wsRef s) (frameCountRef s) (lastTimeRef s)
    (pingIntervalRef s) (sockets s) v (nextTimer s).
Definition set_nextTimer v (s : State) : State :=
  mkState (trackedObjects s) (isProcessing s) (isConnected s) (fps s)
    (error s) (wsRef s) (frameCountRef s) (lastTimeRef s)
    (pingIntervalRef s) (sockets s) (intervals s) v.

(** The hook right after mounting at time [t]: [useState] and [useRef]
    initial values, no socket, no timer. *)
Definition mount (t : Z) : State :=
  mkState [] false false 0 None None 0 t None [] ∅ 1%positive.

(** *** Browser primitives *)

(** [ws.readyState], for the socket named [w]. *)
Definition ready (w : nat) (s : State) : option ReadyState :=
  readyState <$> sockets s !! w.

(** [ws.send(m)].  Data is transmitted only on an open socket. *)
Definition ws_send (w : nat) (m : Outbound) (s : State) : State :=
  match sockets s !! w with
  | Some ws =>
      if decide (readyState ws = OPEN)
      then set_sockets
             (<[w := mkWebSocket (url ws) OPEN (sent ws ++ [m])]> (sockets s)) s
      else s
  | None => s
  end.

(** [ws.close()].  A connecting or open socket starts closing; a socket
    already closing or closed is left alone. *)
Definition close_socket (ws : WebSocket) : WebSocket :=
  match readyState ws with
  | CONNECTING | OPEN => mkWebSocket (url ws) CLOSING (sent ws)
  | CLOSING | CLOSED => ws
  end.

Definition ws_close (w : nat) (s : State) : State :=
  match sockets s !! w with
  | Some ws => set_sockets (<[w := close_socket ws]> (sockets s)) s
  | None => s
  end.

(** [clearInterval(t)]. *)
Definition clearInterval (t : positive) (s : State) : State :=
  set_intervals (delete t (intervals s)) s.

(** [setInterval(cb, 30000)] where [cb] pings socket [w]: returns the fresh
    timer id with the new state. *)
Definition setInterval (w : nat) (s : State) : positive * State :=
  (nextTimer s,
   set_nextTimer (Pos.succ (nextTimer s))
     (set_intervals (<[nextTimer s := w]> (intervals s)) s)).

(** Change the [readyState] of socket [w]; done by the browser only. *)
Definition set_ready (w : nat) (r : ReadyState) (s : State) : State :=
  match sockets s !! w with
  | Some ws =>
      set_sockets (<[w := mkWebSocket (url ws) r (sent ws)]> (sockets s)) s
  | None => s
  end.

(** ** The hook ([app/hooks/use-object-tracker.ts]) *)

(** JavaScript truthiness of a string-valued field: absent and empty are
    falsy. *)
Definition truthy (o : option string) : option string :=
  match o with
  | Some e => if decide (e = "") then None else Some e
  | None => None
  end.

Section Hook.

(** Whether [new WebSocket(url)] accepts the URL; it throws otherwise. *)
Variable url_accepted : string -> bool.

(** [ws.onopen], for the socket [w] the closure captured. *)
Definition onopen (w : nat) (s : State) : State :=
  let s1 := setIsProcessing true (setIsConnected true s) in
  let (t, s2) := setInterval w s1 in
  set_pingIntervalRef (Some t) s2.

(** The keepalive callback registered by [onopen]. *)
Definition ping (w : nat) (s : State) : State :=
  match ready w s with
  | Some OPEN => ws_send w Ping s
  | _ => s
  end.

(** [ws.onmessage].  [data] is [None] when [JSON.parse] throws; [now] is
    what [Date.now()] returns during the call. *)
Definition onmessage (data : option Inbound) (now : Z) (s : State) : State :=
  match data with
  | None => s
  | Some d =>
      if decide (msg_type d = Some "pong") then s
      else
        match truthy (msg_error d) with
        | Some e => setError (Some e) s
        | None =>
            match msg_objects d with
            | Some objs =>
                let s1 := setTrackedObjects objs s in
                let s2 := set_frameCountRef (frameCountRef s1 + 1) s1 in
                let delta := now - lastTimeRef s2 in
                if 1000 <=? delta then
                  set_lastTimeRef now
                    (set_frameCountRef 0
                       (setFps
                          (Math_round
                             (num_of_Z (frameCountRef s2 * 1000)
                              / num_of_Z delta)%Qc)
                          s2))
                else s2
            | None => s
            end
        end
  end.

(** [ws.onerror]. *)
Definition onerror (s : State) : State :=
  setIsConnected false
    (setError (Some "Connection error. Please check your network.") s).

(** [ws.onclose]. *)
Definition onclose (s : State) : State :=
  let s1 := setIsProcessing false (setIsConnected false s) in
  match pingIntervalRef s1 with
  | Some t => clearInterval t s1
  | None => s1
  end.

Definition connectWebSocket (config : TrackingConfig) (s : State) : State :=
  let s1 := setError None s in
  if url_accepted (wsUrl config) then
    let w := length (sockets s1) in
    set_wsRef (Some w)
      (set_sockets
         (sockets s1 ++ [mkWebSocket (wsUrl config) CONNECTING []]) s1)
  else setError (Some "Failed to connect to tracking server") s1.

Definition sendFrame (frameData : string) (now : Z) (s : State) : State :=
  match wsRef s with
  | Some w =>
      match ready w s with
      | Some OPEN => ws_send w (Frame frameData now (frameCountRef s)) s
      | _ => s
      end
  | None => s
  end.

Definition startTracking (config : TrackingConfig) (now : Z) (s : State)
  : State :=
  connectWebSocket config (set_lastTimeRef now (set_frameCountRef 0 s)).

Definition stopTracking (s : State) : State :=
  let s1 := setFps 0 (setTrackedObjects [] (setIsProcessing false s)) in
  let s2 := match pingIntervalRef s1 with
            | Some t => clearInterval t s1
            | None => s1
            end in
  match wsRef s2 with
  | Some w => set_wsRef None (ws_close w s2)
  | None => s2
  end.

(** The effect cleanup, run when the component unmounts. *)
Definition cleanup (s : State) : State :=
  let s1 := match pingIntervalRef s with
            | Some t => clearInterval t s
            | None => s
            end in
  match wsRef s1 with
  | Some w => ws_close w s1
  | None => s1
  end.

(** *** The event loop

    What can happen to a mounted hook: the UI shell calls one of the three
    exported operations, or the browser runs one of the callbacks.  The
    browser side follows the WebSocket standard: [open] fires once on a
    connecting socket and makes it open; [message] fires on an open socket
    only; when the connection is gone the socket becomes closed, [error]
    fires if the connection failed, and then [close] fires. *)

Inductive Event :=
  | StartTracking (now : Z)
  | StopTracking
  | SendFrame (frameData : string) (now : Z)
  | WsOpen (w : nat)
  | WsMessage (w : nat) (data : option Inbound) (now : Z)
  | WsClosed (w : nat) (failed : bool)
  | Tick (t : positive).

Definition deliver_open (w : nat) (s : State) : State :=
  match ready w s with
  | Some CONNECTING => onopen w (set_ready w OPEN s)
  | _ => s
  end.

Definition deliver_message (w : nat) (data : option Inbound) (now : Z)
    (s : State) : State :=
  match ready w s with
  | Some OPEN => onmessage data now s
  | _ => s
  end.

Definition deliver_closed (w : nat) (failed : bool) (s : State) : State :=
  match ready w s with
  | Some CONNECTING | Some OPEN | Some CLOSING =>
      let s1 := set_ready w CLOSED s in
      onclose (if failed then onerror s1 else s1)
  | _ => s
  end.

Definition fire_interval (t : positive) (s : State) : State :=
  match intervals s !! t with
  | Some w => ping w s
  | None => s
  end.

Definition step (config : TrackingConfig) (e : Event) (s : State) : State :=
  match e with
  | StartTracking now => startTracking config now s
  | StopTracking => stopTracking s
  | SendFrame frameData now => sendFrame frameData now s
  | WsOpen w => deliver_open w s
  | WsMessage w data now => deliver_message w data now s
  | WsClosed w failed => deliver_closed w failed s
  | Tick t => fire_interval t s
  end.

Definition run (config : TrackingConfig) (es : list Event) (s : State)
  : State :=
  fold_left (fun acc e => step config e acc) es s.

(** Events raised by the browser, as opposed to calls from the UI shell. *)
Definition from_browser (e : Event) : bool :=
  match e with
  | WsOpen _ | WsMessage _ _ _ | WsClosed _ _ | Tick _ => true
  | StartTracking _ | StopTracking | SendFrame _ _ => false
  end.

End Hook.

(** *** Observations on a state *)

(** The session states of the specification, read off the hook: the socket
    [wsRef] points to decides; with no socket the session is idle. *)
Inductive SessionState := Idle | Connecting | Open | Closing | Closed.

Definition sessionState (s : State) : SessionState :=
  match wsRef s with
  | None => Idle
  | Some w =>
      match ready w s with
      | Some CONNECTING => Connecting
      | Some OPEN => Open
      | Some CLOSING => Closing
      | Some CLOSED => Closed
      | None => Idle
      end
  end.

(** Number of [send] calls that reached the wire, over all sockets. *)
Definition transmissions (s : State) : nat :=
  sum_list (map (fun ws => length (sent ws)) (sockets s)).

(** A connection is live while it is connecting or open. *)
Definition live (ws : WebSocket) : bool :=
  match readyState ws with
  | CONNECTING | OPEN => true
  | CLOSING | CLOSED => false
  end.

Definition live_connections (s : State) : nat :=
  length (filter (fun ws => live ws = true) (sockets s)).

(** The [frame_id]s of the frames sent on a socket, oldest first. *)
Definition frame_ids (ws : WebSocket) : list Z :=
  omap (fun m => match m with Frame _ _ i => Some i | Ping => None end)
       (sent ws).

(** ** The overlay renderer ([TrackingCanvas]) *)

Definition COLORS : list string :=
  [ "#FF6B6B"; "#4ECDC4"; "#45B7D1"; "#96CEB4"; "#FECA57";
    "#FF9FF3"; "#54A0FF"; "#48DBFB"; "#1DD1A1"; "#FFC048";
    "#FF6B9D"; "#C44569"; "#F8B500"; "#6C5CE7"; "#A29BFE" ].

(** The 2D context: its calls are recorded, except [measureText], whose
    answer depends on the font machinery and is left to the context. *)
Record Context2D := mkContext2D { measureText : string -> num }.

Record Canvas := mkCanvas {
  width : N;
  height : N;
  getContext : option Context2D
}.

Record Video := mkVideo { videoWidth : N; videoHeight : N }.

Inductive CanvasOp :=
  | clearRect (x y w h : num)
  | set_strokeStyle (c : option string)
  | set_fillStyle (c : option string)
  | set_lineWidth (w : num)
  | set_font (f : string)
  | set_globalAlpha (a : num)
  | setLineDash (segments : list num)
  | strokeRect (x y w h : num)
  | fillRect (x y w h : num)
  | fillText (text : string) (x y : num)
  | beginPath
  | moveTo (x y : num)
  | lineTo (x y : num)
  | stroke.

(** [COLORS[id % COLORS.length]]; [%] takes the sign of the dividend, and a
    negative index reads [undefined]. *)
Definition color_of (i : Z) : option string :=
  let r := Z.rem i (Z.of_nat (length COLORS)) in
  if r <? 0 then None else COLORS !! Z.to_nat r.

(** The scaled corners [sx1, sy1, sx2, sy2] of an object's box. *)
Definition scaled_bbox (scaleX scaleY : num) (obj : TrackedObject)
  : num * num * num * num :=
  let '(x1, y1, x2, y2) := bbox obj in
  ((x1 * scaleX)%Qc, (y1 * scaleY)%Qc, (x2 * scaleX)%Qc, (y2 * scaleY)%Qc).

(** "Draw bounding box". *)
Definition draw_box (scaleX scaleY : num) (obj : TrackedObject)
  : list CanvasOp :=
  let '(sx1, sy1, sx2, sy2) := scaled_bbox scaleX scaleY obj in
  let width := (sx2 - sx1)%Qc in
  let height := (sy2 - sy1)%Qc in
  [ set_strokeStyle (color_of (id obj));
    set_lineWidth (num_of_Z 3);
    strokeRect sx1 sy1 width height ].

(** "Draw corner accents": four L-shaped strokes, one per corner. *)
Definition draw_corners (scaleX scaleY : num) (obj : TrackedObject)
  : list CanvasOp :=
  let '(sx1, sy1, sx2, sy2) := scaled_bbox scaleX scaleY obj in
  let width := (sx2 - sx1)%Qc in
  let height := (sy2 - sy1)%Qc in
  let cornerLength := (Math_min width height * Q2Qc (2 # 10))%Qc in
  [ set_lineWidth (num_of_Z 4);
    beginPath;
    moveTo sx1 (sy1 + cornerLength)%Qc;
    lineTo sx1 sy1;
    lineTo (sx1 + cornerLength)%Qc sy1;
    stroke;
    beginPath;
    moveTo (sx2 - cornerLength)%Qc sy1;
    lineTo sx2 sy1;
    lineTo sx2 (sy1 + cornerLength)%Qc;
    stroke;
    beginPath;
    moveTo sx1 (sy2 - cornerLength)%Qc;
    lineTo sx1 sy2;
    lineTo (sx1 + cornerLength)%Qc sy2;
    stroke;
    beginPath;
    moveTo (sx2 - cornerLength)%Qc sy2;
    lineTo sx2 sy2;
    lineTo sx2 (sy2 - cornerLength)%Qc;
    stroke ].

(** The text of the label: ["ID:<id> <class> <confidence>%"].  The
    confidence is multiplied as a binary64 number: a value that is not one
    stands for the decimal of the payload, which [JSON.parse] has rounded
    to the nearest binary64 number. *)
Definition fullLabel (obj : TrackedObject) : string :=
  let label := "ID:" +:+ Number_toString (id obj) +:+ " " +:+ class obj in
  let confidence :=
    toFixed0 (times (double (this (confidence obj))) (Finite (num_of_Z 100)))
    +:+ "%" in
  label +:+ " " +:+ confidence.

Arguments fullLabel : simpl never.

(** "Draw label background" and "Label text". *)
Definition draw_label (ctx : Context2D) (scaleX scaleY : num)
    (obj : TrackedObject) : list CanvasOp :=
  let '(sx1, sy1, _, _) := scaled_bbox scaleX scaleY obj in
  let textHeight := num_of_Z 24 in
  let padding := num_of_Z 8 in
  [ set_font "bold 14px Inter, sans-serif";
    set_fillStyle (color_of (id obj));
    fillRect sx1 (sy1 - textHeight - num_of_Z 4)%Qc
      (measureText ctx (fullLabel obj) + padding * num_of_Z 2)%Qc textHeight;
    set_fillStyle (Some "#FFFFFF");
    fillText (fullLabel obj) (sx1 + padding)%Qc (sy1 - num_of_Z 8)%Qc ].

(** "Draw trajectory (if available)": needs at least two points. *)
Definition draw_trajectory (scaleX scaleY : num) (obj : TrackedObject)
  : list CanvasOp :=
  match trajectory obj with
  | Some (p0 :: ((_ :: _) as rest)) =>
      [ set_strokeStyle (color_of (id obj));
        set_lineWidth (num_of_Z 2);
        setLineDash [num_of_Z 5; num_of_Z 5];
        set_globalAlpha (Q2Qc (6 # 10));
        beginPath;
        moveTo (px p0 * scaleX)%Qc (py p0 * scaleY)%Qc ]
      ++ map (fun p => lineTo (px p * scaleX)%Qc (py p * scaleY)%Qc) rest
      ++ [ stroke; set_globalAlpha (num_of_Z 1); setLineDash [] ]
  | _ => []
  end.

(** The body of [trackedObjects.forEach]. *)
Definition draw_object (ctx : Context2D) (scaleX scaleY : num)
    (obj : TrackedObject) : list CanvasOp :=
  draw_box scaleX scaleY obj
  ++ draw_corners scaleX scaleY obj
  ++ draw_label ctx scaleX scaleY obj
  ++ draw_trajectory scaleX scaleY obj.

(** "Match canvas to video dimensions". *)
Definition match_video (canvas : Canvas) (video : Video) : Canvas :=
  if negb (width canvas =? videoWidth video)%N
     || negb (height canvas =? videoHeight video)%N
  then mkCanvas (videoWidth video) (videoHeight video) (getContext canvas)
  else canvas.

(** "Calculate scale factors", on the canvas as it is at that point. *)
Definition scaleX (canvas : Canvas) (video : Video) : num :=
  (num_of_N (width canvas) / num_of_N (or_one (videoWidth video)))%Qc.

Definition scaleY (canvas : Canvas) (video : Video) : num :=
  (num_of_N (height canvas) / num_of_N (or_one (videoHeight video)))%Qc.

(** One redraw.  [None] is the early return (no canvas, no video or no
    context): nothing is painted and no further frame is requested.
    Otherwise the result is the canvas after the redraw and the context
    calls made, in order; the next animation frame is then requested. *)
Definition draw (canvasRef : option Canvas) (videoRef : option Video)
    (trackedObjects : list TrackedObject) : option (Canvas * list CanvasOp) :=
  match canvasRef, videoRef with
  | Some canvas0, Some video =>
      match getContext canvas0 with
      | None => None
      | Some ctx =>
          let canvas := match_video canvas0 video in
          let sx := scaleX canvas video in
          let sy := scaleY canvas video in
          Some (canvas,
                clearRect (num_of_Z 0) (num_of_Z 0)
                  (num_of_N (width canvas)) (num_of_N (height canvas))
                :: flat_map (draw_object ctx sx sy) trackedObjects)
      end
  | _, _ => None
  end.

(** ** Scenarios and sample data *)

(** An inbound results payload: no [type], no [error], an [objects] array. *)
Definition results (objs : list TrackedObject) : option Inbound :=
  Some (mkInbound None None (Some objs)).

(** Results payloads handled one after the other by [onmessage], [gap]
    milliseconds apart, the first one [gap] milliseconds after [t]. *)
Fixpoint receive_all (gap t : Z) (payloads : list (list TrackedObject))
    (s : State) : State :=
  match payloads with
  | [] => s
  | objs :: rest =>
      receive_all gap (t + gap) rest (onmessage (results objs) (t + gap) s)
  end.

(** No socket of the session is connecting or open any more. *)
Definition quiet (s : State) : Prop :=
  Forall (fun ws => live ws = false) (sockets s).

(** What a recording double sees of the boxes: every [strokeRect], as the
    corner coordinates [(x1, y1, x2, y2)] it covers. *)
Definition stroked_boxes (ops : list CanvasOp) : list (Q * Q * Q * Q) :=
  omap (fun op =>
          match op with
          | strokeRect x y w h =>
              Some (this x, this y, this (x + w)%Qc, this (y + h)%Qc)
          | _ => None
          end) ops.

(** The context call that paints the current path. *)
Definition is_stroke (op : CanvasOp) : bool :=
  match op with
  | stroke => true
  | _ => false
  end.

(** The same object reported with another confidence. *)
Definition with_confidence (c : num) (obj : TrackedObject) : TrackedObject :=
  mkTrackedObject (id obj) (bbox obj) (class obj) c (trajectory obj).

(** A call sequence of the UI shell in which [startTracking] is never called
    twice without a [stopTracking] in between; [started] tells whether a
    start is pending at the beginning. *)
Fixpoint no_double_start (started : bool) (es : list Event) : bool :=
  match es with
  | [] => true
  | StartTracking _ :: rest => negb started && no_double_start true rest
  | StopTracking :: rest => no_double_start false rest
  | _ :: rest => no_double_start started rest
  end.

(** Every socket except the one [wsRef] holds is closing or closed. *)
Definition others_closed (s : State) : Prop :=
  forall w ws, sockets s !! w = Some ws -> wsRef s <> Some w -> live ws = false.

(** [s'] has no socket that [s] lacks, and none that is live in [s'] without
    being live in [s]. *)
Definition no_new_life (s s' : State) : Prop :=
  forall i ws', sockets s' !! i = Some ws' ->
    exists ws, sockets s !! i = Some ws /\ (live ws' = true -> live ws = true).

Definition sample_config : TrackingConfig :=
  mkTrackingConfig "ws://localhost:8000/ws" "http://localhost:8000" None.

Definition accept_all (_ : string) : bool := true.

Definition sample_object : TrackedObject :=
  mkTrackedObject 7
    (num_of_Z 100, num_of_Z 50, num_of_Z 200, num_of_Z 150)
    "car" (Q2Qc (87 # 100)) None.

Definition sample_context : Context2D := mkContext2D (fun _ => num_of_Z 50).

From Stdlib Require Import Lqa.

(** ** Well-formed hook states *)

(** What every state reached from [mount] satisfies: the refs point at
    objects that exist, timer ids are below the next id to be handed out,
    and the two counters are not negative. *)
Definition well_formed (s : State) : Prop :=
  (forall w, wsRef s = Some w -> (w < length (sockets s))%nat)
  /\ (forall k w, intervals s !! k = Some w ->
        (w < length (sockets s))%nat /\ (k < nextTimer s)%positive)
  /\ (forall k, pingIntervalRef s = Some k -> (k < nextTimer s)%positive)
  /\ 0 <= frameCountRef s
  /\ 0 <= fps s.

(** The events that can put something on the wire. *)
Definition may_transmit (e : Event) : bool :=
  match e with
  | SendFrame _ _ | Tick _ => true
  | _ => false
  end.

(** ** Reading a recorded redraw *)

(** An object's box as the service sent it: [(x1, y1, x2, y2)]. *)
Definition box_corners (obj : TrackedObject) : Q * Q * Q * Q :=
  let '(x1, y1, x2, y2) := bbox obj in (this x1, this y1, this x2, this y2).

(** The part of the context state the renderer changes and later painting
    depends on: [globalAlpha] and the line dash pattern. *)
Definition PaintState : Type := num * list num.

(** The state of a fresh context: opaque, solid lines. *)
Definition default_paint : PaintState := (num_of_Z 1, []).

Definition paint_step (st : PaintState) (op : CanvasOp) : PaintState :=
  match op with
  | set_globalAlpha a => (a, snd st)
  | setLineDash segments => (fst st, segments)
  | _ => st
  end.

(** The calls that paint a box or a label. *)
Definition paints_box_or_label (op : CanvasOp) : bool :=
  match op with
  | strokeRect _ _ _ _ | fillRect _ _ _ _ | fillText _ _ _ => true
  | _ => false
  end.

(** Every box and label call of [ops] is made in the default paint state,
    when the calls are run from state [st]. *)
Fixpoint boxes_solid (st : PaintState) (ops : list CanvasOp) : Prop :=
  match ops with
  | [] => True
  | op :: rest =>
      (paints_box_or_label op = true -> st = default_paint)
      /\ boxes_solid (paint_step st op) rest
  end.

(** The objects an inbound payload puts on display, if any: the payload
    must parse, not be a pong, carry no truthy error, and have an [objects]
    field. *)
Definition accepted (data : option Inbound) : option (list TrackedObject) :=
  match data with
  | Some d =>
      if decide (msg_type d = Some "pong") then None
      else match truthy (msg_error d) with
           | Some _ => None
           | None => msg_objects d
           end
  | None => None
  end.

(** Inbound payloads handled in order, each with its arrival time. *)
Definition handle_all (msgs : list (option Inbound * Z)) (s : State) : State :=
  fold_left (fun acc m => onmessage (fst m) (snd m) acc) msgs s.

(** The objects of the last payload of [msgs] that was put on display, or
    [shown] if there is none. *)
Definition latest (shown : list TrackedObject)
    (msgs : list (option Inbound * Z)) : list TrackedObject :=
  fold_left (fun acc m => default acc (accepted (fst m))) msgs shown.

(** The points a list of context calls moves or draws a line to. *)
Definition path_points (ops : list CanvasOp) : list (num * num) :=
  omap (fun op =>
          match op with
          | moveTo x y | lineTo x y => Some (x, y)
          | _ => None
          end) ops.

(** ** The overlay's redraw loop ([TrackingCanvas], the effect on
    [draw] and [isLive])

    What the component and the browser hold between two renders: the canvas
    behind [canvasRef]; what is painted on it, as the context calls made
    since it was last cleared; and the animation frame that is pending, if
    any, with the snapshot of tracked objects its [draw] closure holds.  At
    most one frame is pending at a time and [animationRef] holds its id:
    every run of [draw] requests one, and runs either as that frame or right
    after the effect's cleanup has cancelled it. *)
Record Overlay := mkOverlay {
  canvasRef : option Canvas;
  painted : list CanvasOp;
  pending : option (list TrackedObject)
}.

(** One run of the [draw] closure that holds the snapshot [objs].  On an
    early return nothing is painted and no further frame is requested. *)
Definition redraw (videoRef : option Video) (objs : list TrackedObject)
    (o : Overlay) : Overlay :=
  match draw (canvasRef o) videoRef objs with
  | Some (canvas, ops) => mkOverlay (Some canvas) ops (Some objs)
  | None => mkOverlay (canvasRef o) (painted o) None
  end.

(** The browser runs the pending animation frame, if there is one. *)
Definition animation_frame (videoRef : option Video) (o : Overlay) : Overlay :=
  match pending o with
  | Some objs => redraw videoRef objs o
  | None => o
  end.

(** The effect, run after a render in which [trackedObjects] or [isLive]
    changed: the cleanup of the previous run cancels the pending frame,
    then [draw] is called only if [isLive]. *)
Definition overlay_effect (isLive : bool) (videoRef : option Video)
    (trackedObjects : list TrackedObject) (o : Overlay) : Overlay :=
  let cancelled := mkOverlay (canvasRef o) (painted o) None in
  if isLive then redraw videoRef trackedObjects cancelled else cancelled.

(** ** Figures shared by the page and the dashboard *)

(** [trackedObjects.reduce((acc, obj) => acc + obj.confidence, 0)]. *)
Definition sum_confidence (objs : list TrackedObject) : num :=
  fold_left (fun acc obj => (acc + confidence obj)%Qc) objs (num_of_Z 0).

(** The sum divided by [trackedObjects.length]. *)
Definition mean_confidence (objs : list TrackedObject) : num :=
  (sum_confidence objs / num_of_Z (Z.of_nat (length objs)))%Qc.

(** [new Set(trackedObjects.map((obj) => obj.id))]. *)
Definition id_set (objs : list TrackedObject) : gset Z :=
  list_to_set (id <$> objs).

(** ** The analytics dashboard ([app/components/analytics-dashboard.tsx]) *)

Module Dashboard.

Definition COLORS : list string :=
  [ "#FF6B6B"; "#4ECDC4"; "#45B7D1"; "#96CEB4"; "#FECA57";
    "#FF9FF3"; "#54A0FF"; "#48DBFB"; "#1DD1A1"; "#FFC048" ].

(** The dot next to an object in the list: [COLORS[obj.id % COLORS.length]]. *)
Definition color (i : Z) : option string :=
  let r := Z.rem i (Z.of_nat (length COLORS)) in
  if r <? 0 then None else COLORS !! Z.to_nat r.

Definition uniqueObjects (trackedObjects : list TrackedObject) : nat :=
  size (id_set trackedObjects).

Definition avgConfidence (trackedObjects : list TrackedObject) : num :=
  if (length trackedObjects =? 0)%nat then num_of_Z 0
  else mean_confidence trackedObjects.

End Dashboard.

(** ** The page: frame sampler and live analytics *)

Inductive Tab := UploadTab | LiveTab.

(** One point of the confidence chart and one bar of the class chart. *)
Record ConfidenceSample := mkConfidenceSample {
  sample_timestamp : string;
  sample_confidence : num
}.

Record ClassCount := mkClassCount { class_name : string; class_count : Z }.

Record AnalyticsData := mkAnalyticsData {
  totalObjects : Z;
  avgConfidence : num;
  confidenceHistory : list ConfidenceSample;
  objectClasses : list ClassCount
}.

(** [l.slice(-n)]: the last [n] elements, all of them if there are fewer. *)
Definition slice_last {A} (n : nat) (l : list A) : list A :=
  drop (length l - n) l.

(** The effect "Update analytics based on live tracking", run whenever the
    tracked objects or the tab change; [timestamp] is
    [new Date().toISOString()]. *)
Definition liveAnalytics (activeTab : Tab) (trackedObjects : list TrackedObject)
    (timestamp : string) (prev : AnalyticsData) : AnalyticsData :=
  match activeTab with
  | LiveTab =>
      if (0 <? length trackedObjects)%nat then
        let uniqueIds := id_set trackedObjects in
        let avgConf := mean_confidence trackedObjects in
        mkAnalyticsData (Z.of_nat (size uniqueIds)) avgConf
          (slice_last 50 (confidenceHistory prev)
           ++ [mkConfidenceSample timestamp avgConf])
          (objectClasses prev)
      else prev
  | UploadTab => prev
  end.

(** The effect run once per entry of a list of renders. *)
Definition liveAnalytics_all
    (renders : list (Tab * list TrackedObject * string))
    (a : AnalyticsData) : AnalyticsData :=
  fold_left (fun acc r => liveAnalytics (fst (fst r)) (snd (fst r)) (snd r) acc)
            renders a.

(** The analytics the page starts with. *)
Definition initial_analytics : AnalyticsData :=
  mkAnalyticsData 0 (num_of_Z 0) [] [].

Section Sampler.

(** What the video shows at the moment of a capture, and the JPEG data URL
    [canvas.toDataURL("image/jpeg", 0.8)] yields once that picture has been
    drawn on a canvas of the given width and height. *)
Variable Picture : Type.
Variable toDataURL : N -> N -> Picture -> string.

Record VideoElement := mkVideoElement {
  native : Video;
  paused : bool;
  ended : bool;
  picture : Picture
}.

(** "Convert video frame to base64 and send".  Returns the capture canvas
    and the hook state after the call. *)
Definition captureAndSendFrame (videoRef : option VideoElement)
    (canvasRef : option Canvas) (now : Z) (s : State)
  : option Canvas * State :=
  match videoRef, canvasRef with
  | Some video, Some canvas0 =>
      if paused video || ended video then (canvasRef, s)
      else
        let canvas := mkCanvas (videoWidth (native video))
                        (videoHeight (native video)) (getContext canvas0) in
        match getContext canvas with
        | None => (Some canvas, s)
        | Some _ =>
            let frameData :=
              toDataURL (width canvas) (height canvas) (picture video) in
            (Some canvas, sendFrame frameData now s)
        end
  | _, _ => (canvasRef, s)
  end.

End Sampler.

(** ** The camera component ([app/components/live-stream-capture.tsx])

    The component's state and refs, the value last assigned to
    [videoRef.current.srcObject] (absent when [videoRef.current] is null),
    and the media streams the browser handed out so far: a stream is named
    by its index and is the list of its tracks, [true] for a live track and
    [false] for a stopped one.  [srcObject] records the assignment only:
    the page and the component each render a video element with the same
    ref, and which of the two the ref points at when it is assigned is not
    modelled, so nothing is stated about what either element shows.  The
    two props [onStreamStart] and [onStreamStop] act on the tracker
    hook. *)

Module LiveStreamCapture.

Record Capture := mkCapture {
  isStreaming : bool;
  error : option string;
  streamRef : option nat;
  srcObject : option (option nat);
  streams : list (list bool)
}.

(** What [navigator.mediaDevices.getUserMedia] settles to: a rejection, or
    a new stream with the given number of live tracks. *)
Inductive UserMedia := Denied | Granted (tracks : nat).

Definition initial (hasVideo : bool) : Capture :=
  mkCapture false None None (if hasVideo then Some None else None) [].

Section Props.

Variable onStreamStart : State -> State.
Variable onStreamStop : State -> State.

(** [startStream] up to the [await]. *)
Definition startStream_begin (c : Capture) : Capture :=
  mkCapture (isStreaming c) None (streamRef c) (srcObject c) (streams c).

(** [startStream] from the [await] on, once [getUserMedia] has settled. *)
Definition startStream_resume (media : UserMedia) (c : Capture) (s : State)
  : Capture * State :=
  match media with
  | Denied =>
      (mkCapture (isStreaming c)
         (Some "Could not access camera. Please ensure you have granted camera permissions.")
         (streamRef c) (srcObject c) (streams c),
       s)
  | Granted tracks =>
      let stream := length (streams c) in
      (mkCapture true (error c) (Some stream)
         (match srcObject c with
          | Some _ => Some (Some stream)
          | None => None
          end)
         (streams c ++ [replicate tracks true]),
       onStreamStart s)
  end.

Definition stopStream (c : Capture) (s : State) : Capture * State :=
  let streams1 :=
    match streamRef c with
    | Some stream =>
        match streams c !! stream with
        | Some tracks => <[stream := (fun _ => false) <$> tracks]> (streams c)
        | None => streams c
        end
    | None => streams c
    end in
  (mkCapture false (error c) None
     (match srcObject c with
      | Some _ => Some None
      | None => None
      end)
     streams1,
   onStreamStop s).

(** [restartStream], with nothing else happening before the delayed
    [startStream] runs and [getUserMedia] settles. *)
Definition restartStream (media : UserMedia) (c : Capture) (s : State)
  : Capture * State :=
  let (c1, s1) := stopStream c s in
  startStream_resume media (startStream_begin c1) s1.

End Props.

(** The number of camera tracks still live, over all streams. *)
Definition live_tracks (c : Capture) : nat :=
  length (filter (fun live => live = true) (concat (streams c))).

End LiveStreamCapture.

(** ** The upload route ([POST /api/process-video]) *)

Module ProcessVideo.

Section Route.

(** Uploaded files and parsed JSON are opaque; [parse] is what
    [response.json()] does to the body text, [None] when it throws. *)
Variable File : Type.
Variable Json : Type.
Variable parse : string -> option Json.

(** A value stored in form data: a file or a string. *)
Inductive FormValue := FileValue (f : File) | TextValue (s : string).

(** The backend's answer: its status and its body text ([None] when the
    body cannot be read). *)
Record BackendResponse := mkBackendResponse {
  status : Z;
  body : option string
}.

Inductive ReplyBody :=
  | ErrorBody (error : string) (details : option string)
  | DataBody (data : Json).

Record Reply := mkReply { reply_status : Z; reply_body : ReplyBody }.

(** [response.ok]. *)
Definition ok (r : BackendResponse) : bool :=
  (200 <=? status r) && (status r <=? 299).

(** [!file] on what [formData.get("file")] returned. *)
Definition missing (file : option FormValue) : bool :=
  match file with
  | None => true
  | Some (TextValue s) => if decide (s = "") then true else false
  | Some (FileValue _) => false
  end.

(** [NextResponse.json(body, { status })].  Building a response with a
    body throws for a status outside 200..599 and for the statuses that
    cannot have a body. *)
Definition json (reply : ReplyBody) (st : Z) : option Reply :=
  if (200 <=? st) && (st <=? 599)
     && negb ((st =? 204) || (st =? 205) || (st =? 304))
  then Some (mkReply st reply)
  else None.

(** The reply of the [catch] block. *)
Definition internal_error : Reply :=
  mkReply 500 (ErrorBody "Internal server error" None).

(** The handler.  [request] is what [request.formData()] and then
    [formData.get("file")] yield, [None] when reading the form data fails;
    [backend] is the [fetch] to the Python service, [None] when it rejects. *)
Definition POST (backend : FormValue -> option BackendResponse)
    (request : option (option FormValue)) : Reply :=
  match request with
  | None => internal_error
  | Some file =>
      if missing file then mkReply 400 (ErrorBody "No file provided" None)
      else
        match file with
        | None => internal_error
        | Some value =>
            match backend value with
            | None => internal_error
            | Some response =>
                match body response with
                | None => internal_error
                | Some text =>
                    if ok response then
                      match parse text with
                      | Some data => mkReply 200 (DataBody data)
                      | None => internal_error
                      end
                    else
                      match json (ErrorBody "Backend processing failed"
                                    (Some text)) (status response) with
                      | Some reply => reply
                      | None => internal_error
                      end
                end
            end
        end
  end.

End Route.

End ProcessVideo.

(** * Properties *)

(** Expose the record built by a chain of state updates. *)
Ltac state_simpl :=
  cbv [clearInterval setTrackedObjects setIsProcessing setIsConnected
       setFps setError set_wsRef set_frameCountRef set_lastTimeRef
       set_pingIntervalRef set_sockets set_intervals set_nextTimer
       trackedObjects isProcessing isConnected fps error wsRef frameCountRef
       lastTimeRef pingIntervalRef sockets intervals nextTimer] in *.

(** ** Bookkeeping lemmas on the browser primitives *)

Lemma ready_Some w s r :
  ready w s = Some r <-> exists ws, sockets s !! w = Some ws /\ readyState ws = r.
Proof.
  unfold ready. destruct (sockets s !! w) as [ws|]; simpl; split.
  - intros [= <-]. eauto.
  - intros (ws' & [= <-] & <-). reflexivity.
  - discriminate.
  - intros (ws' & [=] & _).
Qed.

Lemma ws_send_open w m s ws :
  sockets s !! w = Some ws -> readyState ws = OPEN ->
  ws_send w m s
  = set_sockets (<[w := mkWebSocket (url ws) OPEN (sent ws ++ [m])]> (sockets s)) s.
Proof.
  intros Hw Hr. unfold ws_send. rewrite Hw.
  destruct (decide (readyState ws = OPEN)); [reflexivity | contradiction].
Qed.

(** ** Stream session *)

(** C1.  In every session state other than [Open] -- idle, connecting,
    closing or closed -- [sendFrame] is a no-op: the whole state, sockets
    included, is unchanged, so nothing is transmitted, queued or retried. *)
Theorem sendFrame_not_open_noop (frameData : string) (now : Z) (s : State) :
  sessionState s <> Open ->
  sendFrame frameData now s = s
  /\ transmissions (sendFrame frameData now s) = transmissions s
  /\ sessionState (sendFrame frameData now s) = sessionState s.
Proof.
  intros Hst.
  assert (sendFrame frameData now s = s) as ->; [|auto].
  unfold sendFrame. unfold sessionState in Hst.
  destruct (wsRef s) as [w|]; [|reflexivity].
  destruct (ready w s) as [[]|]; try reflexivity.
  congruence.
Qed.

(** C4.  [stopTracking] can be called in any state.  It cancels the timer
    held in [pingIntervalRef], empties the tracked objects, zeroes the FPS
    and puts an open current socket into the closing state; on a freshly
    mounted hook it changes nothing; and calling it a second time leaves the
    state exactly as the first call left it. *)
Theorem stopTracking_idempotent (s : State) :
  let s1 := stopTracking s in
  (forall t, pingIntervalRef s = Some t -> intervals s1 !! t = None)
  /\ trackedObjects s1 = []
  /\ fps s1 = 0
  /\ isProcessing s1 = false
  /\ (forall w, wsRef s = Some w -> ready w s = Some OPEN ->
        ready w s1 = Some CLOSING)
  /\ wsRef s1 = None
  /\ (forall t, stopTracking (mount t) = mount t)
  /\ stopTracking s1 = s1.
Proof.
  destruct s as [objs proc conn f err ws cnt last ping socks ivs next].
  unfold stopTracking; simpl.
  repeat split.
  - intros t ->. simpl.
    destruct ws as [w|]; simpl; unfold ws_close; simpl;
      try destruct (socks !! w); simpl; apply lookup_delete_eq.
  - destruct ping, ws as [w|]; simpl; unfold ws_close; simpl;
      try destruct (socks !! w); reflexivity.
  - destruct ping, ws as [w|]; simpl; unfold ws_close; simpl;
      try destruct (socks !! w); reflexivity.
  - destruct ping, ws as [w|]; simpl; unfold ws_close; simpl;
      try destruct (socks !! w); reflexivity.
  - intros w -> Hopen.
    apply ready_Some in Hopen as (sock & Hw & Hr). simpl in Hw.
    assert (w < length socks)%nat by (eapply lookup_lt_Some; eassumption).
    destruct ping; simpl; unfold ws_close; simpl; rewrite Hw; simpl;
      unfold ready; simpl; rewrite list_lookup_insert_eq by assumption;
      simpl; unfold close_socket; rewrite Hr; reflexivity.
  - destruct ping, ws as [w|]; simpl; unfold ws_close; simpl;
      try destruct (socks !! w); reflexivity.
  - destruct ping, ws as [w|]; simpl; unfold ws_close; simpl;
      try destruct (socks !! w); state_simpl; rewrite ?delete_delete_eq;
      reflexivity.
Qed.

Lemma stopTracking_idempotent_witness :
  let s := run accept_all sample_config
             [StartTracking 0; WsOpen 0; WsMessage 0 (results [sample_object]) 5]
             (mount 0) in
  trackedObjects s = [sample_object]
  /\ ready 0 s = Some OPEN
  /\ ready 0 (stopTracking s) = Some CLOSING
  /\ stopTracking (stopTracking s) = stopTracking s.
Proof.
  intros s.
  destruct (stopTracking_idempotent s) as (_ & _ & _ & _ & Hclose & _ & _ & Hidem).
  split; [reflexivity|]. split; [reflexivity|].
  split; [apply (Hclose 0%nat); reflexivity | exact Hidem].
Defined.

Lemma sendFrame_not_open_noop_witness :
  let s := startTracking accept_all sample_config 0 (mount 0) in
  sessionState s = Connecting /\ sendFrame "data:image/jpeg;base64," 1 s = s.
Proof.
  intros s. split; [reflexivity|].
  apply (sendFrame_not_open_noop "data:image/jpeg;base64," 1 s).
  vm_compute. discriminate.
Defined.

(** The handler's guards come in order: pong first, then a truthy error. *)
Lemma onmessage_pong d now s :
  msg_type d = Some "pong" -> onmessage (Some d) now s = s.
Proof.
  intros H. unfold onmessage. destruct (decide (msg_type d = Some "pong"));
    [reflexivity | contradiction].
Qed.

Lemma onmessage_results objs now s :
  onmessage (results objs) now s
  = let s2 := set_frameCountRef (frameCountRef s + 1)
                (setTrackedObjects objs s) in
    if 1000 <=? now - lastTimeRef s then
      set_lastTimeRef now
        (set_frameCountRef 0
           (setFps (Math_round (num_of_Z ((frameCountRef s + 1) * 1000)
                                / num_of_Z (now - lastTimeRef s))%Qc) s2))
    else s2.
Proof. reflexivity. Qed.

(** C6 (as amended).  A message that is not tagged as a pong and whose
    [error] field is a non-empty string only records that error: no socket
    is touched, so the connection stays as it was, and the session state and
    the tracked objects are unchanged. *)
Theorem onmessage_error (d : Inbound) (e : string) (now : Z) (s : State) :
  msg_type d <> Some "pong" ->
  msg_error d = Some e ->
  e <> "" ->
  let s' := onmessage (Some d) now s in
  s' = setError (Some e) s
  /\ error s' = Some e
  /\ sockets s' = sockets s
  /\ sessionState s' = sessionState s
  /\ trackedObjects s' = trackedObjects s.
Proof.
  intros Htype Herr Hne s'.
  assert (s' = setError (Some e) s) as ->; [|repeat split].
  subst s'. unfold onmessage.
  destruct (decide (msg_type d = Some "pong")); [contradiction|].
  rewrite Herr. simpl. destruct (decide (e = "")); [contradiction|reflexivity].
Qed.

Lemma onmessage_error_witness :
  let d := mkInbound None (Some "model not loaded") None in
  let s := run accept_all sample_config [StartTracking 0; WsOpen 0] (mount 0) in
  error (onmessage (Some d) 3 s) = Some "model not loaded"
  /\ sessionState (onmessage (Some d) 3 s) = Open.
Proof.
  intros d s.
  destruct (onmessage_error d "model not loaded" 3 s) as (_ & He & _ & Hs & _).
  - vm_compute. discriminate.
  - reflexivity.
  - vm_compute. discriminate.
  - split; [exact He | rewrite Hs; reflexivity].
Defined.

(** C6 fails as stated: a payload tagged [pong] that also carries an error
    is discarded before the error is looked at. *)
Lemma onmessage_error_counterexample :
  ~ (forall d e now s,
       msg_error d = Some e -> error (onmessage (Some d) now s) = Some e).
Proof.
  intros H.
  specialize (H (mkInbound (Some "pong") (Some "overloaded") None)
                "overloaded" 0 (mount 0) eq_refl).
  vm_compute in H. discriminate.
Qed.

Lemma sendFrame_open a t s w ws :
  wsRef s = Some w -> sockets s !! w = Some ws -> readyState ws = OPEN ->
  sendFrame a t s
  = set_sockets
      (<[w := mkWebSocket (url ws) OPEN
                (sent ws ++ [Frame a t (frameCountRef s)])]> (sockets s)) s.
Proof.
  intros Href Hw Hopen. unfold sendFrame. rewrite Href.
  unfold ready. rewrite Hw. simpl. rewrite Hopen.
  apply ws_send_open; assumption.
Qed.

(** C7.  [sendFrame] stamps a frame with the FPS window counter and does not
    advance it: two frames sent back to back on an open session carry the
    same [frame_id]. *)
Theorem sendFrame_repeats_frame_id (a b : string) (t1 t2 : Z) (s : State)
    (w : nat) (ws : WebSocket) :
  wsRef s = Some w ->
  sockets s !! w = Some ws ->
  readyState ws = OPEN ->
  frame_ids <$> sockets (sendFrame b t2 (sendFrame a t1 s)) !! w
  = Some (frame_ids ws ++ [frameCountRef s; frameCountRef s]).
Proof.
  intros Href Hw Hopen.
  assert (w < length (sockets s))%nat as Hlt by (eapply lookup_lt_Some; eauto).
  set (ws1 := mkWebSocket (url ws) OPEN
                (sent ws ++ [Frame a t1 (frameCountRef s)])).
  rewrite (sendFrame_open a t1 s w ws Href Hw Hopen). fold ws1.
  rewrite (sendFrame_open b t2 _ w ws1); simpl; trivial;
    [|apply list_lookup_insert_eq; assumption].
  rewrite list_insert_insert_eq, list_lookup_insert_eq by assumption.
  simpl. unfold frame_ids. simpl. rewrite !omap_app. simpl.
  rewrite <- app_assoc. reflexivity.
Qed.

Lemma sendFrame_repeats_frame_id_witness :
  let s := run accept_all sample_config [StartTracking 0; WsOpen 0] (mount 0) in
  frame_ids <$> sockets (sendFrame "b" 200 (sendFrame "a" 100 s)) !! 0%nat
  = Some [0; 0].
Proof.
  intros s.
  apply (sendFrame_repeats_frame_id "a" "b" 100 200 s 0
           (mkWebSocket "ws://localhost:8000/ws" OPEN []));
    reflexivity.
Defined.

(** C8 (as amended).  [startTracking] connects unconditionally: with a URL
    the constructor accepts, each call adds one connecting socket, makes it
    the current one and leaves every earlier socket as it was, so the number
    of live connections grows by one. *)
Theorem startTracking_always_connects (url_accepted : string -> bool)
    (config : TrackingConfig) (now : Z) (s : State) :
  url_accepted (wsUrl config) = true ->
  let s' := startTracking url_accepted config now s in
  sockets s' = sockets s ++ [mkWebSocket (wsUrl config) CONNECTING []]
  /\ wsRef s' = Some (length (sockets s))
  /\ live_connections s' = S (live_connections s).
Proof.
  intros Hurl s'. subst s'. unfold startTracking, connectWebSocket.
  rewrite Hurl. repeat split.
  unfold live_connections. simpl. rewrite filter_app, length_app. simpl.
  lia.
Qed.

Lemma startTracking_always_connects_witness :
  let s := startTracking accept_all sample_config 0 (mount 0) in
  live_connections s = 1%nat
  /\ live_connections (startTracking accept_all sample_config 1 s) = 2%nat.
Proof.
  intros s. split; [reflexivity|].
  destruct (startTracking_always_connects accept_all sample_config 1 s eq_refl)
    as (_ & _ & ->).
  reflexivity.
Defined.

(** C8 fails as stated: after two calls to [startTracking] with no
    [stopTracking] in between, both sockets open and both stay open. *)
Lemma double_start_counterexample :
  let s := run accept_all sample_config
             [StartTracking 0; StartTracking 1; WsOpen 0; WsOpen 1] (mount 0) in
  map readyState (sockets s) = [OPEN; OPEN]
  /\ ~ (live_connections s <= 1)%nat.
Proof.
  split; [reflexivity|]. vm_compute. lia.
Qed.

(** *** FPS accounting *)

(** While arrivals stay inside the window, they are only counted. *)
Lemma receive_all_inside gap payloads : forall t s,
  0 <= gap ->
  t + gap * Z.of_nat (length payloads) - lastTimeRef s < 1000 ->
  frameCountRef (receive_all gap t payloads s)
  = frameCountRef s + Z.of_nat (length payloads)
  /\ lastTimeRef (receive_all gap t payloads s) = lastTimeRef s
  /\ fps (receive_all gap t payloads s) = fps s.
Proof.
  induction payloads as [|objs rest IH]; intros t s Hgap Hin;
    cbn [receive_all].
  - repeat split. simpl. lia.
  - simpl length in *.
    assert ((1000 <=? t + gap - lastTimeRef s) = false) as Hlt by lia.
    set (s1 := onmessage (results objs) (t + gap) s).
    assert (frameCountRef s1 = frameCountRef s + 1
            /\ lastTimeRef s1 = lastTimeRef s /\ fps s1 = fps s)
      as (Hc & Hl & Hf).
    { subst s1. rewrite onmessage_results. simpl. rewrite Hlt.
      repeat split. }
    destruct (IH (t + gap) s1 Hgap) as (Hc' & Hl' & Hf').
    { rewrite Hl. lia. }
    rewrite Hc', Hl', Hf', Hc, Hl, Hf. repeat split. lia.
Qed.

Lemma receive_all_app gap l1 : forall l2 t s,
  receive_all gap t (l1 ++ l2) s
  = receive_all gap (t + gap * Z.of_nat (length l1)) l2
      (receive_all gap t l1 s).
Proof.
  induction l1 as [|objs rest IH]; intros l2 t s; simpl receive_all.
  - f_equal. simpl. lia.
  - rewrite IH. f_equal. simpl length. lia.
Qed.

Lemma Math_round_ratio (n d : Z) :
  0 < n -> 0 < d -> Math_round (num_of_Z (n * d) / num_of_Z n)%Qc = d.
Proof.
  intros Hn Hd. unfold Math_round, num_of_Z.
  assert ((Q2Qc (inject_Z (n * d)) / Q2Qc (inject_Z n))%Qc = Q2Qc (inject_Z d))
    as ->.
  { apply Qc_is_canon. unfold Qcdiv, Qcmult, Qcinv. cbn [this Q2Qc].
    rewrite !Qred_correct. rewrite inject_Z_mult. field.
    unfold Qeq, inject_Z. simpl. lia. }
  cbn [this Q2Qc]. rewrite Qred_correct.
  assert (inject_Z d + (1 # 2) == (2 * d + 1) # 2)%Q as ->.
  { unfold Qeq, Qplus, inject_Z. simpl. lia. }
  unfold Qfloor. symmetry. apply Z.div_unique with (r := 1); lia.
Qed.

(** C3.  Every results message replaces the tracked objects and bumps the
    counter.  If at least 1000 ms have passed since the window started, the
    FPS becomes [round(counter * 1000 / elapsed)] (the counter including this
    message) and both the counter and the window start are reset; otherwise
    the FPS and the window start stay.  Consequently ten results messages
    arriving 100 ms apart, the tenth 1000 ms after the window started, leave
    the FPS at exactly 10. *)
Theorem fps_window (s : State) (objs : list TrackedObject) (now : Z) :
  let s' := onmessage (results objs) now s in
  let counter := frameCountRef s + 1 in
  let elapsed := now - lastTimeRef s in
  trackedObjects s' = objs
  /\ (1000 <= elapsed ->
      fps s' = Math_round (num_of_Z (counter * 1000) / num_of_Z elapsed)%Qc
      /\ frameCountRef s' = 0
      /\ lastTimeRef s' = now)
  /\ (elapsed < 1000 ->
      fps s' = fps s
      /\ frameCountRef s' = counter
      /\ lastTimeRef s' = lastTimeRef s)
  /\ (forall payloads,
        frameCountRef s = 0 ->
        length payloads = 10%nat ->
        fps (receive_all 100 (lastTimeRef s) payloads s) = 10).
Proof.
  intros s' counter elapsed. subst s' counter elapsed.
  rewrite onmessage_results. simpl.
  split; [|split; [|split]].
  - destruct (1000 <=? now - lastTimeRef s); reflexivity.
  - intros H. apply Z.leb_le in H. rewrite H. repeat split.
  - intros H. apply Z.leb_gt in H. rewrite H. repeat split.
  - intros payloads Hzero Hlen.
    destruct (@exists_last _ payloads) as (front & objs' & ->).
    { intros ->. discriminate. }
    rewrite length_app in Hlen. simpl in Hlen.
    assert (length front = 9%nat) as Hfront by lia.
    rewrite receive_all_app. rewrite Hfront.
    destruct (receive_all_inside 100 front (lastTimeRef s) s) as (Hc & Hl & _).
    { lia. } { rewrite Hfront. lia. }
    rewrite Hfront, Hzero in Hc.
    set (s9 := receive_all 100 (lastTimeRef s) front s) in *.
    cbn [receive_all]. rewrite onmessage_results. cbv zeta.
    rewrite Hc, Hl.
    replace (lastTimeRef s + 100 * Z.of_nat 9 + 100 - lastTimeRef s)
      with 1000 by lia.
    change (1000 <=? 1000) with true.
    cbn [fps set_lastTimeRef set_frameCountRef setFps].
    change ((0 + Z.of_nat 9 + 1) * 1000) with (1000 * 10).
    apply Math_round_ratio; lia.
Qed.

Lemma fps_window_witness :
  fps (receive_all 100 5 (replicate 10 [sample_object])
         (startTracking accept_all sample_config 5 (mount 0))) = 10.
Proof.
  destruct (fps_window (startTracking accept_all sample_config 5 (mount 0))
              [] 0) as (_ & _ & _ & H).
  apply (H (replicate 10 [sample_object])); reflexivity.
Defined.

(** *** Teardown *)

Lemma close_socket_not_live ws : live (close_socket ws) = false.
Proof. unfold close_socket, live. destruct (readyState ws) eqn:E; simpl; try rewrite E; reflexivity. Qed.

Lemma sockets_stopTracking s :
  sockets (stopTracking s)
  = match wsRef s with
    | Some w =>
        match sockets s !! w with
        | Some ws => <[w := close_socket ws]> (sockets s)
        | None => sockets s
        end
    | None => sockets s
    end.
Proof.
  destruct s as [objs proc conn f err ws cnt last ping socks ivs next].
  unfold stopTracking, ws_close. state_simpl.
  destruct ping, ws as [w|]; state_simpl; try reflexivity;
    destruct (socks !! w); reflexivity.
Qed.

Lemma quiet_ready w s r :
  quiet s -> ready w s = Some r -> r = CLOSING \/ r = CLOSED.
Proof.
  intros Hq Hr. apply ready_Some in Hr as (ws & Hw & <-).
  unfold quiet in Hq. rewrite Forall_lookup in Hq.
  specialize (Hq w ws Hw). unfold live in Hq.
  destruct (readyState ws); auto; discriminate.
Qed.

(** Once every socket is closing or closed, nothing the browser delivers
    reaches the tracked objects or starts a timer. *)
Lemma browser_step_quiet url_accepted config e s :
  quiet s -> from_browser e = true ->
  quiet (step url_accepted config e s)
  /\ trackedObjects (step url_accepted config e s) = trackedObjects s
  /\ intervals (step url_accepted config e s) ⊆ intervals s
  /\ nextTimer (step url_accepted config e s) = nextTimer s.
Proof.
  intros Hq He.
  destruct e as [now| |fd now|w|w data now|w failed|t]; try discriminate;
    simpl.
  - unfold deliver_open. destruct (ready w s) as [r|] eqn:Hr; [|auto].
    destruct (quiet_ready w s r Hq Hr) as [-> | ->]; auto.
  - unfold deliver_message. destruct (ready w s) as [r|] eqn:Hr; [|auto].
    destruct (quiet_ready w s r Hq Hr) as [-> | ->]; auto.
  - unfold deliver_closed. destruct (ready w s) as [r|] eqn:Hr; [|auto].
    destruct (quiet_ready w s r Hq Hr) as [-> | ->]; [|auto].
    apply ready_Some in Hr as (ws & Hw & Hws).
    unfold set_ready. rewrite Hw. unfold onclose, onerror, quiet in *.
    destruct s as [objs proc conn f err wr cnt last ping socks ivs next].
    state_simpl.
    assert (Forall (fun ws0 => live ws0 = false)
              (<[w := mkWebSocket (url ws) CLOSED (sent ws)]> socks)) as Hq'.
    { apply Forall_insert; [assumption | reflexivity]. }
    destruct failed, ping; state_simpl; repeat split;
      try assumption; try reflexivity; apply delete_subseteq.
  - unfold fire_interval. destruct (intervals s !! t) as [w|]; [|auto].
    unfold ping. destruct (ready w s) as [r|] eqn:Hr; [|auto].
    destruct (quiet_ready w s r Hq Hr) as [-> | ->]; auto.
Qed.

Lemma browser_run_quiet url_accepted config es : forall s,
  quiet s -> forallb from_browser es = true ->
  trackedObjects (run url_accepted config es s) = trackedObjects s
  /\ intervals (run url_accepted config es s) ⊆ intervals s
  /\ nextTimer (run url_accepted config es s) = nextTimer s.
Proof.
  induction es as [|e es IH]; intros s Hq Hes; simpl.
  - auto.
  - simpl in Hes. apply andb_prop in Hes as [He Hes].
    destruct (browser_step_quiet url_accepted config e s Hq He)
      as (Hq1 & Ho1 & Hi1 & Hn1).
    destruct (IH _ Hq1 Hes) as (Ho & Hi & Hn).
    unfold run in *. rewrite Ho, Hn, Ho1, Hn1. repeat split.
    etransitivity; eassumption.
Qed.

Lemma no_new_life_refl s s' : sockets s' = sockets s -> no_new_life s s'.
Proof. intros E i ws' H. rewrite E in H. eauto. Qed.

Lemma no_new_life_insert s s' w ws ws1 :
  sockets s !! w = Some ws ->
  sockets s' = <[w := ws1]> (sockets s) ->
  (live ws1 = true -> live ws = true) ->
  no_new_life s s'.
Proof.
  intros Hw E Hl i ws' H. rewrite E in H.
  destruct (decide (w = i)) as [->|Hne].
  - rewrite list_lookup_insert_eq in H by (eapply lookup_lt_Some; eassumption).
    injection H as <-. eauto.
  - rewrite list_lookup_insert_ne in H by assumption. eauto.
Qed.

Lemma no_new_life_trans s1 s2 s3 :
  no_new_life s1 s2 -> no_new_life s2 s3 -> no_new_life s1 s3.
Proof.
  intros H12 H23 i ws3 H3.
  destruct (H23 i ws3 H3) as (ws2 & H2 & Hl2).
  destruct (H12 i ws2 H2) as (ws1 & H1 & Hl1). eauto.
Qed.

Lemma ws_send_effect w m s :
  no_new_life s (ws_send w m s) /\ wsRef (ws_send w m s) = wsRef s.
Proof.
  unfold ws_send. destruct (sockets s !! w) as [ws|] eqn:Hw;
    [|split; [apply no_new_life_refl|]; reflexivity].
  destruct (decide (readyState ws = OPEN)) as [Ho|];
    [|split; [apply no_new_life_refl|]; reflexivity].
  split; [|reflexivity].
  eapply no_new_life_insert; [eassumption|reflexivity|].
  intros _. unfold live. rewrite Ho. reflexivity.
Qed.

Lemma set_ready_effect w r s ws :
  sockets s !! w = Some ws ->
  (live (mkWebSocket (url ws) r (sent ws)) = true -> live ws = true) ->
  no_new_life s (set_ready w r s) /\ wsRef (set_ready w r s) = wsRef s.
Proof.
  intros Hw Hl. unfold set_ready. rewrite Hw. split; [|reflexivity].
  eapply no_new_life_insert; [eassumption|reflexivity|assumption].
Qed.

Lemma onmessage_effect data now s :
  sockets (onmessage data now s) = sockets s
  /\ wsRef (onmessage data now s) = wsRef s.
Proof.
  unfold onmessage. destruct data as [d|]; [|auto].
  destruct (decide (msg_type d = Some "pong")); [auto|].
  destruct (truthy (msg_error d)); [auto|].
  destruct (msg_objects d); [|auto].
  cbv zeta. destruct (1000 <=? _); auto.
Qed.

Lemma onclose_effect s :
  sockets (onclose s) = sockets s /\ wsRef (onclose s) = wsRef s.
Proof.
  unfold onclose. cbv zeta.
  destruct (pingIntervalRef _); auto.
Qed.

(** What a step other than a start or a stop does to the sockets. *)
Lemma step_effect url_accepted config e s :
  match e with StartTracking _ | StopTracking => False | _ => True end ->
  no_new_life s (step url_accepted config e s)
  /\ wsRef (step url_accepted config e s) = wsRef s.
Proof.
  intros He.
  destruct e as [now| |fd now|w|w data now|w failed|t]; try contradiction;
    simpl.
  - unfold sendFrame. destruct (wsRef s) as [w|] eqn:Href;
      [|split; [apply no_new_life_refl|]; auto].
    destruct (ready w s) as [[]|];
      try (split; [apply no_new_life_refl|]; auto; fail).
    rewrite <- Href. apply ws_send_effect.
  - unfold deliver_open. destruct (ready w s) as [r|] eqn:Hr;
      [|split; [apply no_new_life_refl|]; auto].
    destruct r; try (split; [apply no_new_life_refl|]; auto; fail).
    apply ready_Some in Hr as (ws & Hw & Hws).
    destruct (set_ready_effect w OPEN s ws Hw) as (Hn & Href).
    { intros _. unfold live. rewrite Hws. reflexivity. }
    split; [|rewrite <- Href; reflexivity].
    eapply no_new_life_trans; [exact Hn|]. apply no_new_life_refl.
    reflexivity.
  - unfold deliver_message. destruct (ready w s) as [[]|];
      try (split; [apply no_new_life_refl|]; auto; fail).
    destruct (onmessage_effect data now s) as (Hs & Href).
    split; [apply no_new_life_refl|]; assumption.
  - unfold deliver_closed.
    destruct (ready w s) as [r|] eqn:Hr;
      [|split; [apply no_new_life_refl|]; auto].
    apply ready_Some in Hr as (ws & Hw & Hws).
    destruct (set_ready_effect w CLOSED s ws Hw) as (Hn & Href).
    { discriminate. }
    assert (forall s1, no_new_life s s1 -> wsRef s1 = wsRef s ->
              no_new_life s (onclose (if failed then onerror s1 else s1))
              /\ wsRef (onclose (if failed then onerror s1 else s1)) = wsRef s)
      as Hclose.
    { intros s1 Hn1 Href1.
      destruct (onclose_effect (if failed then onerror s1 else s1))
        as (Hs & Hr').
      split.
      - eapply no_new_life_trans; [exact Hn1|]. apply no_new_life_refl.
        rewrite Hs. destruct failed; reflexivity.
      - rewrite Hr', <- Href1. destruct failed; reflexivity. }
    destruct r; try (apply Hclose; assumption).
    split; [apply no_new_life_refl|]; reflexivity.
  - unfold fire_interval. destruct (intervals s !! t) as [w|];
      [|split; [apply no_new_life_refl|]; auto].
    unfold ping. destruct (ready w s) as [[]|];
      try (split; [apply no_new_life_refl|]; auto; fail).
    apply ws_send_effect.
Qed.

Lemma quiet_others_closed s : quiet s -> others_closed s.
Proof.
  intros Hq w ws Hw _. unfold quiet in Hq. rewrite Forall_lookup in Hq.
  eauto.
Qed.

Lemma stopTracking_quiet s : others_closed s -> quiet (stopTracking s).
Proof.
  intros Hothers.
  unfold quiet. rewrite sockets_stopTracking. apply Forall_lookup.
  intros i ws' Hi.
  destruct (wsRef s) as [w|] eqn:Href.
  - destruct (sockets s !! w) as [ws|] eqn:Hw.
    + destruct (decide (w = i)) as [->|Hne].
      * rewrite list_lookup_insert_eq in Hi
          by (eapply lookup_lt_Some; eassumption).
        injection Hi as <-. apply close_socket_not_live.
      * rewrite list_lookup_insert_ne in Hi by assumption.
        apply (Hothers i ws' Hi). rewrite Href. congruence.
    + apply (Hothers i ws' Hi). rewrite Href. intros [= <-]. congruence.
  - apply (Hothers i ws' Hi). rewrite Href. discriminate.
Qed.

Lemma stopTracking_idle s : wsRef (stopTracking s) = None.
Proof.
  destruct s as [objs proc conn f err ws cnt last ping socks ivs next].
  unfold stopTracking. destruct ping, ws; reflexivity.
Qed.

Lemma startTracking_others_closed url_accepted config now s :
  others_closed s -> wsRef s = None ->
  others_closed (startTracking url_accepted config now s).
Proof.
  intros Ho Href. unfold startTracking, connectWebSocket.
  destruct (url_accepted _).
  - intros w ws Hw Hne. simpl in *.
    apply lookup_app_Some in Hw as [Hw | [Hge Hw]].
    + apply (Ho w ws Hw). rewrite Href. discriminate.
    + destruct (w - length (sockets s))%nat as [|k] eqn:Hk; [|discriminate Hw].
      contradiction Hne. f_equal. lia.
  - intros w ws Hw Hne. simpl in *. apply (Ho w ws Hw).
    rewrite Href. discriminate.
Qed.

(** Without a double start, the current socket is the only one that can be
    live. *)
Lemma no_double_start_others_closed url_accepted config es :
  forall started s,
    others_closed s ->
    (started = false -> wsRef s = None) ->
    no_double_start started es = true ->
    others_closed (run url_accepted config es s).
Proof.
  induction es as [|e es IH]; intros started s Ho Hidle Hes; [exact Ho|].
  change (run url_accepted config (e :: es) s)
    with (run url_accepted config es (step url_accepted config e s)).
  destruct e as [now| |fd now|w|w data now|w failed|t]; simpl in Hes.
  2: { apply (IH false); [| |exact Hes].
       - apply quiet_others_closed, stopTracking_quiet, Ho.
       - intros _. apply stopTracking_idle. }
  1: { apply andb_prop in Hes as [Hs Hes].
       apply (IH true); [|discriminate|exact Hes].
       apply startTracking_others_closed; [exact Ho|].
       apply Hidle. destruct started; [discriminate|reflexivity]. }
  all: match goal with
       | |- others_closed (run _ _ _ (step _ _ ?e _)) =>
           destruct (step_effect url_accepted config e s I) as (Hn & Href)
       end;
    apply (IH started); [|rewrite Href; exact Hidle|exact Hes];
    intros i ws' Hi Hne;
    destruct (Hn i ws' Hi) as (ws & Hw & Hl);
    rewrite Href in Hne; specialize (Ho i ws Hw Hne);
    destruct (live ws') eqn:E; [|reflexivity];
    rewrite Hl in Ho by reflexivity; discriminate.
Qed.

Lemma stopTracking_facts s :
  trackedObjects (stopTracking s) = []
  /\ nextTimer (stopTracking s) = nextTimer s
  /\ (forall t, pingIntervalRef s = Some t ->
        intervals (stopTracking s) !! t = None).
Proof.
  destruct s as [objs proc conn f err ws cnt last ping socks ivs next].
  unfold stopTracking, ws_close. state_simpl.
  destruct ping, ws as [w|]; state_simpl;
    try destruct (socks !! w); state_simpl; repeat split;
    intros t [= <-]; apply lookup_delete_eq.
Qed.

(** With every other socket closing or closed, [stopTracking] leaves a
    session that no browser event can wake up. *)
Lemma stopTracking_then_browser url_accepted config s es :
  others_closed s ->
  forallb from_browser es = true ->
  trackedObjects (run url_accepted config es (stopTracking s)) = []
  /\ intervals (run url_accepted config es (stopTracking s))
     ⊆ intervals (stopTracking s)
  /\ nextTimer (run url_accepted config es (stopTracking s)) = nextTimer s
  /\ (forall k, pingIntervalRef s = Some k ->
        intervals (run url_accepted config es (stopTracking s)) !! k = None).
Proof.
  intros Hothers Hes.
  pose proof (stopTracking_quiet s Hothers) as Hq.
  destruct (browser_run_quiet url_accepted config es _ Hq Hes)
    as (Ho & Hi & Hn).
  destruct (stopTracking_facts s) as (Hobjs & Hnext & Hping).
  rewrite Ho, Hn. repeat split; try assumption.
  intros k Hk. specialize (Hping k Hk).
  eapply lookup_weaken_None; eassumption.
Qed.

(** C9 (as amended).  In a session where [startTracking] was never called
    twice without a [stopTracking] in between, [stopTracking] is final:
    whatever the browser delivers afterwards -- open, message, close or
    error, timer tick -- the tracked objects stay empty, no timer is
    created, and the timer held in [pingIntervalRef] stays cancelled. *)
Theorem stopTracking_is_final (url_accepted : string -> bool)
    (config : TrackingConfig) (t : Z) (before after : list Event) :
  no_double_start false before = true ->
  forallb from_browser after = true ->
  let s := run url_accepted config before (mount t) in
  let s' := run url_accepted config after (stopTracking s) in
  trackedObjects s' = []
  /\ intervals s' ⊆ intervals (stopTracking s)
  /\ nextTimer s' = nextTimer s
  /\ (forall k, pingIntervalRef s = Some k -> intervals s' !! k = None).
Proof.
  intros Hbefore Hafter s s'. subst s s'.
  apply stopTracking_then_browser; [|exact Hafter].
  apply (no_double_start_others_closed url_accepted config before false);
    [|reflexivity|exact Hbefore].
  intros w ws Hw. discriminate Hw.
Qed.

Lemma stopTracking_is_final_witness :
  let before := [StartTracking 0; WsOpen 0;
                 WsMessage 0 (results [sample_object]) 5; StopTracking;
                 StartTracking 10; WsOpen 1;
                 WsMessage 1 (results [sample_object]) 15] in
  let after := [WsMessage 1 (results [sample_object]) 16; Tick 2;
                WsOpen 1; WsClosed 1 false; WsClosed 0 true] in
  let s := run accept_all sample_config before (mount 0) in
  trackedObjects s = [sample_object]
  /\ trackedObjects (run accept_all sample_config after (stopTracking s)) = [].
Proof.
  intros before after s. split; [reflexivity|].
  refine (proj1 (stopTracking_is_final accept_all sample_config 0
                   before after _ _)); reflexivity.
Defined.

(** C9 fails as stated: a socket orphaned by a second [startTracking] is not
    closed by [stopTracking]; its messages still replace the tracked objects,
    and if it was still connecting it opens later and starts a timer. *)
Lemma stopTracking_orphan_counterexample :
  let s1 := run accept_all sample_config
              [StartTracking 0; StartTracking 1; WsOpen 0; WsOpen 1;
               StopTracking; WsMessage 0 (results [sample_object]) 2]
              (mount 0) in
  let s2 := run accept_all sample_config
              [StartTracking 0; StartTracking 1; StopTracking] (mount 0) in
  trackedObjects s1 <> []
  /\ intervals s2 = ∅
  /\ intervals (step accept_all sample_config (WsOpen 0) s2) !! 1%positive
     = Some 0%nat.
Proof.
  split; [|split].
  - intros H. apply (f_equal (@length _)) in H. vm_compute in H. discriminate.
  - reflexivity.
  - reflexivity.
Qed.

(** ** Overlay renderer *)

Lemma num_of_N_zero n : num_of_N n = num_of_Z 0 -> n = 0%N.
Proof.
  unfold num_of_N, num_of_Z. intros H.
  apply (f_equal this) in H. cbn [this Q2Qc] in H.
  assert (inject_Z (Z.of_N n) == inject_Z 0)%Q as Hq.
  { rewrite <- (Qred_correct (inject_Z (Z.of_N n))), H. apply Qred_correct. }
  unfold Qeq, inject_Z in Hq. simpl in Hq. lia.
Qed.

Lemma match_video_dims canvas video :
  width (match_video canvas video) = videoWidth video
  /\ height (match_video canvas video) = videoHeight video
  /\ getContext (match_video canvas video) = getContext canvas.
Proof.
  unfold match_video.
  destruct (N.eqb_spec (width canvas) (videoWidth video));
    destruct (N.eqb_spec (height canvas) (videoHeight video));
    simpl; auto.
Qed.

Lemma scale_after_match (n : N) :
  (num_of_N n / num_of_N (or_one n))%Qc
  = if (n =? 0)%N then num_of_Z 0 else num_of_Z 1.
Proof.
  unfold or_one. destruct (N.eqb_spec n 0) as [->|Hn].
  - apply Qc_is_canon. reflexivity.
  - unfold Qcdiv. rewrite Qcmult_inv_r; [apply Qc_is_canon; reflexivity|].
    intros H. apply Hn, num_of_N_zero. exact H.
Qed.

Lemma scaleX_match_video canvas video :
  scaleX (match_video canvas video) video
  = if (videoWidth video =? 0)%N then num_of_Z 0 else num_of_Z 1.
Proof.
  unfold scaleX. destruct (match_video_dims canvas video) as (-> & _ & _).
  apply scale_after_match.
Qed.

Lemma scaleY_match_video canvas video :
  scaleY (match_video canvas video) video
  = if (videoHeight video =? 0)%N then num_of_Z 0 else num_of_Z 1.
Proof.
  unfold scaleY. destruct (match_video_dims canvas video) as (_ & -> & _).
  apply scale_after_match.
Qed.

Lemma draw_Some canvas video ctx objs :
  getContext canvas = Some ctx ->
  draw (Some canvas) (Some video) objs
  = Some (match_video canvas video,
          clearRect (num_of_Z 0) (num_of_Z 0)
            (num_of_N (width (match_video canvas video)))
            (num_of_N (height (match_video canvas video)))
          :: flat_map (draw_object ctx
                         (scaleX (match_video canvas video) video)
                         (scaleY (match_video canvas video) video)) objs).
Proof. intros H. unfold draw. rewrite H. reflexivity. Qed.

Lemma strokeRect_in_draw_object ctx sx sy obj x1 y1 x2 y2 :
  bbox obj = (x1, y1, x2, y2) ->
  In (strokeRect (x1 * sx) (y1 * sy) (x2 * sx - x1 * sx) (y2 * sy - y1 * sy))%Qc
     (draw_object ctx sx sy obj).
Proof.
  intros Hb. unfold draw_object, draw_box, scaled_bbox. rewrite Hb.
  simpl. auto.
Qed.

Lemma Qc_mul_1 (x : num) : (x * num_of_Z 1)%Qc = x.
Proof. apply Qcmult_1_r. Qed.

Lemma Qc_mul_0 (x : num) : (x * num_of_Z 0)%Qc = num_of_Z 0.
Proof.
  change (num_of_Z 0) with 0%Qc. rewrite Qcmult_comm. apply Qcmult_0_l.
Qed.

Lemma Qc_sub_0 : (num_of_Z 0 - num_of_Z 0)%Qc = num_of_Z 0.
Proof. apply Qc_is_canon. reflexivity. Qed.

(** C2 (as amended).  A redraw first resizes the canvas to the video's
    native size, and only then computes [scaleX = canvas.width /
    (videoWidth || 1)] and [scaleY] likewise; each box corner [(x, y)] is
    drawn at [(x * scaleX, y * scaleY)].  Hence both factors are 1 whenever
    the native dimension is non-zero, and every box is stroked at its source
    coordinates: with a 640x480 source and a canvas that was 1280x960, the
    canvas becomes 640x480 and the box (100,50,200,150) is drawn at
    (100,50,200,150). *)
Theorem draw_scales_bbox (canvas : Canvas) (video : Video) (ctx : Context2D)
    (objs : list TrackedObject) :
  getContext canvas = Some ctx ->
  exists canvas' ops,
    draw (Some canvas) (Some video) objs = Some (canvas', ops)
    /\ width canvas' = videoWidth video
    /\ height canvas' = videoHeight video
    /\ (forall obj x1 y1 x2 y2,
          In obj objs -> bbox obj = (x1, y1, x2, y2) ->
          let sx := scaleX canvas' video in
          let sy := scaleY canvas' video in
          In (strokeRect (x1 * sx) (y1 * sy)
                (x2 * sx - x1 * sx) (y2 * sy - y1 * sy))%Qc ops)
    /\ (videoWidth video <> 0%N -> scaleX canvas' video = num_of_Z 1)
    /\ (videoHeight video <> 0%N -> scaleY canvas' video = num_of_Z 1)
    /\ (videoWidth video <> 0%N -> videoHeight video <> 0%N ->
        forall obj x1 y1 x2 y2,
          In obj objs -> bbox obj = (x1, y1, x2, y2) ->
          In (strokeRect x1 y1 (x2 - x1) (y2 - y1))%Qc ops)
    /\ (canvas = mkCanvas 1280 960 (Some ctx) ->
        video = mkVideo 640 480 ->
        objs = [sample_object] ->
        width canvas' = 640%N /\ height canvas' = 480%N
        /\ stroked_boxes ops = [(100 # 1, 50 # 1, 200 # 1, 150 # 1)]%Q).
Proof.
  intros Hctx.
  eexists _, _. split; [apply draw_Some; eassumption|].
  destruct (match_video_dims canvas video) as (Hw & Hh & _).
  assert (forall obj x1 y1 x2 y2,
            In obj objs -> bbox obj = (x1, y1, x2, y2) ->
            let sx := scaleX (match_video canvas video) video in
            let sy := scaleY (match_video canvas video) video in
            In (strokeRect (x1 * sx) (y1 * sy)
                  (x2 * sx - x1 * sx) (y2 * sy - y1 * sy))%Qc
               (clearRect (num_of_Z 0) (num_of_Z 0)
                  (num_of_N (width (match_video canvas video)))
                  (num_of_N (height (match_video canvas video)))
                :: flat_map (draw_object ctx
                               (scaleX (match_video canvas video) video)
                               (scaleY (match_video canvas video) video))
                     objs)) as Hbox.
  { intros obj x1 y1 x2 y2 Hin Hb sx sy. right.
    apply in_flat_map. exists obj. split; [assumption|].
    apply strokeRect_in_draw_object. assumption. }
  assert (videoWidth video <> 0%N ->
          scaleX (match_video canvas video) video = num_of_Z 1) as HsX.
  { intros Hnz. rewrite scaleX_match_video.
    destruct (N.eqb_spec (videoWidth video) 0); [contradiction|reflexivity]. }
  assert (videoHeight video <> 0%N ->
          scaleY (match_video canvas video) video = num_of_Z 1) as HsY.
  { intros Hnz. rewrite scaleY_match_video.
    destruct (N.eqb_spec (videoHeight video) 0); [contradiction|reflexivity]. }
  repeat split; try assumption.
  - intros Hnw Hnh obj x1 y1 x2 y2 Hin Hb.
    specialize (Hbox obj x1 y1 x2 y2 Hin Hb). cbv zeta in Hbox.
    revert Hbox. rewrite (HsX Hnw), (HsY Hnh), !Qc_mul_1. trivial.
  - rewrite Hw. subst video. reflexivity.
  - rewrite Hh. subst video. reflexivity.
  - subst canvas video objs. vm_compute. reflexivity.
Qed.

Lemma draw_scales_bbox_witness :
  exists canvas' ops,
    draw (Some (mkCanvas 1280 960 (Some sample_context)))
         (Some (mkVideo 640 480)) [sample_object] = Some (canvas', ops)
    /\ width canvas' = 640%N
    /\ stroked_boxes ops = [(100 # 1, 50 # 1, 200 # 1, 150 # 1)]%Q.
Proof.
  destruct (draw_scales_bbox (mkCanvas 1280 960 (Some sample_context))
              (mkVideo 640 480) sample_context [sample_object] eq_refl)
    as (canvas' & ops & Hdraw & _ & _ & _ & _ & _ & _ & Hex).
  destruct (Hex eq_refl eq_refl eq_refl) as (Hw & _ & Hboxes).
  exists canvas', ops. auto.
Defined.

(** C2 fails as stated: with a 640x480 source and a 1280x960 canvas the box
    (100,50,200,150) is not drawn at (200,100,400,300); the redraw shrinks
    the canvas to 640x480 and draws the box unscaled. *)
Lemma draw_scale_counterexample :
  let result := draw (Some (mkCanvas 1280 960 (Some sample_context)))
                     (Some (mkVideo 640 480)) [sample_object] in
  bbox sample_object
  = (num_of_Z 100, num_of_Z 50, num_of_Z 200, num_of_Z 150)
  /\ (stroked_boxes ∘ snd) <$> result
     = Some [(100 # 1, 50 # 1, 200 # 1, 150 # 1)]%Q
  /\ (stroked_boxes ∘ snd) <$> result
     <> Some [(200 # 1, 100 # 1, 400 # 1, 300 # 1)]%Q
  /\ ((fun c => (width c, height c)) ∘ fst) <$> result
     = Some (640%N, 480%N).
Proof.
  split; [reflexivity|]. split; [vm_compute; reflexivity|].
  split; [vm_compute; discriminate | vm_compute; reflexivity].
Qed.

(** C5 (as amended).  A redraw never fails on a zero native dimension: the
    divisor [videoWidth || 1] is 1 there.  The canvas has just been resized
    to that same zero dimension, so the axis's scale factor is 0 / 1 = 0 and
    every box coordinate on that axis is drawn at 0. *)
Theorem draw_zero_dimension (canvas : Canvas) (video : Video)
    (ctx : Context2D) (objs : list TrackedObject) :
  getContext canvas = Some ctx ->
  exists canvas' ops,
    draw (Some canvas) (Some video) objs = Some (canvas', ops)
    /\ (videoWidth video = 0%N ->
        or_one (videoWidth video) = 1%N
        /\ scaleX canvas' video = num_of_Z 0
        /\ forall obj x1 y1 x2 y2,
             In obj objs -> bbox obj = (x1, y1, x2, y2) ->
             let sy := scaleY canvas' video in
             In (strokeRect (num_of_Z 0) (y1 * sy) (num_of_Z 0)
                   (y2 * sy - y1 * sy))%Qc ops)
    /\ (videoHeight video = 0%N ->
        or_one (videoHeight video) = 1%N
        /\ scaleY canvas' video = num_of_Z 0
        /\ forall obj x1 y1 x2 y2,
             In obj objs -> bbox obj = (x1, y1, x2, y2) ->
             let sx := scaleX canvas' video in
             In (strokeRect (x1 * sx) (num_of_Z 0) (x2 * sx - x1 * sx)
                   (num_of_Z 0))%Qc ops).
Proof.
  intros Hctx.
  eexists _, _. split; [apply draw_Some; eassumption|].
  split.
  - intros Hz. split; [rewrite Hz; reflexivity|].
    assert (scaleX (match_video canvas video) video = num_of_Z 0) as HsX.
    { rewrite scaleX_match_video, Hz. reflexivity. }
    split; [exact HsX|].
    intros obj x1 y1 x2 y2 Hin Hb sy. right.
    apply in_flat_map. exists obj. split; [assumption|].
    pose proof (strokeRect_in_draw_object ctx
                  (scaleX (match_video canvas video) video) sy
                  obj x1 y1 x2 y2 Hb) as H.
    revert H. rewrite HsX, !Qc_mul_0, Qc_sub_0. trivial.
  - intros Hz. split; [rewrite Hz; reflexivity|].
    assert (scaleY (match_video canvas video) video = num_of_Z 0) as HsY.
    { rewrite scaleY_match_video, Hz. reflexivity. }
    split; [exact HsY|].
    intros obj x1 y1 x2 y2 Hin Hb sx. right.
    apply in_flat_map. exists obj. split; [assumption|].
    pose proof (strokeRect_in_draw_object ctx sx
                  (scaleY (match_video canvas video) video)
                  obj x1 y1 x2 y2 Hb) as H.
    revert H. rewrite HsY, !Qc_mul_0, Qc_sub_0. trivial.
Qed.

Lemma draw_zero_dimension_witness :
  exists canvas' ops,
    draw (Some (mkCanvas 300 150 (Some sample_context)))
         (Some (mkVideo 0 480)) [sample_object] = Some (canvas', ops)
    /\ scaleX canvas' (mkVideo 0 480) = num_of_Z 0.
Proof.
  destruct (draw_zero_dimension (mkCanvas 300 150 (Some sample_context))
              (mkVideo 0 480) sample_context [sample_object] eq_refl)
    as (canvas' & ops & Hdraw & Hx & _).
  destruct (Hx eq_refl) as (_ & Hs & _).
  exists canvas', ops. auto.
Defined.

(** C5 fails as stated: with a native width of 0 the x scale is 0, not 1,
    and the box (100,50,200,150) has its x coordinates drawn at 0, not at
    100 and 200. *)
Lemma draw_zero_dimension_counterexample :
  let video := mkVideo 0 480 in
  let result := draw (Some (mkCanvas 300 150 (Some sample_context)))
                     (Some video) [sample_object] in
  (stroked_boxes ∘ snd) <$> result = Some [(0 # 1, 50 # 1, 0 # 1, 150 # 1)]%Q
  /\ ((fun c => this (scaleX c video)) ∘ fst) <$> result = Some (0 # 1)%Q
  /\ ((fun c => this (scaleX c video)) ∘ fst) <$> result <> Some (1 # 1)%Q.
Proof.
  split; [vm_compute; reflexivity|].
  split; [vm_compute; reflexivity | vm_compute; discriminate].
Qed.

(** *** Confidence plays no part *)

(** The hook reads nothing but [wsUrl] from its configuration. *)
Lemma run_config_irrelevant url_accepted c1 c2 es : forall s,
  wsUrl c1 = wsUrl c2 ->
  run url_accepted c1 es s = run url_accepted c2 es s.
Proof.
  intros s Hurl. revert s.
  induction es as [|e es IH]; intros s; [reflexivity|].
  unfold run in *. simpl. rewrite <- IH. f_equal.
  destruct e; simpl; try reflexivity.
  unfold startTracking, connectWebSocket. rewrite Hurl. reflexivity.
Qed.

Lemma draw_object_in_draw ctx sx sy obj objs :
  In obj objs ->
  exists before after,
    flat_map (draw_object ctx sx sy) objs
    = before ++ draw_object ctx sx sy obj ++ after.
Proof.
  intros Hin. apply in_split in Hin as (l1 & l2 & ->).
  exists (flat_map (draw_object ctx sx sy) l1),
         (flat_map (draw_object ctx sx sy) l2).
  rewrite flat_map_app. reflexivity.
Qed.

Lemma this_plus (a b : num) : (this (a + b)%Qc == this a + this b)%Q.
Proof. apply Qred_correct. Qed.

Lemma this_minus (a b : num) : (this (a - b)%Qc == this a - this b)%Q.
Proof.
  unfold Qcminus, Qcplus, Qcopp. cbn [this Q2Qc].
  rewrite !Qred_correct. reflexivity.
Qed.

Lemma this_mult (a b : num) : (this (a * b)%Qc == this a * this b)%Q.
Proof. apply Qred_correct. Qed.

Lemma this_half (a : num) : (this (a / num_of_Z 2)%Qc == this a * (1 # 2))%Q.
Proof.
  unfold Qcdiv. rewrite this_mult. apply Qmult_comp; [reflexivity|].
  reflexivity.
Qed.

(** On a box of positive width and height the arm of an accent is longer
    than nothing and shorter than half of either side. *)
Lemma corner_length_inside (w h : num) :
  (num_of_Z 0 < w)%Qc -> (num_of_Z 0 < h)%Qc ->
  let cl := (Math_min w h * Q2Qc (2 # 10))%Qc in
  (0 < this cl)%Q /\ (this cl < this w * (1 # 2))%Q
  /\ (this cl < this h * (1 # 2))%Q.
Proof.
  intros Hw Hh cl. subst cl. unfold Qclt in *.
  change (this (num_of_Z 0)) with 0%Q in *. rewrite this_mult.
  change (this (Q2Qc (2 # 10))) with (1 # 5)%Q.
  unfold Math_min. destruct (Qc_lt_dec h w) as [Hlt|Hge].
  - unfold Qclt in Hlt. lra.
  - apply Qcnot_lt_le in Hge. unfold Qcle in Hge. lra.
Qed.

(** C10.  A redraw paints every object of the list it is given, whatever
    its confidence.  For an object with box [(x1, y1, x2, y2)] the context
    calls contain, in this order and with nothing in between: the stroke of
    the scaled rectangle in the object's colour; four accent paths, one per
    corner of that rectangle, each going from a point on one edge to the
    corner and on to a point on the other edge; the filled background of the
    label and its text, ["ID:<id> <class> <percentage>%"], above the top-left
    corner; then the trajectory, if any.  On a rectangle of positive width
    and height each arm of an accent ends strictly between its corner and
    the middle of the edge, so the accents have a length and do not meet.
    The confidence appears in the text of the label and nowhere else.
    Nothing filters on [confidenceThreshold]: [draw] has no access to the
    configuration, and the hook behaves the same for any two configurations
    with the same [wsUrl]. *)
Theorem draw_every_object (canvas : Canvas) (video : Video) (ctx : Context2D)
    (objs : list TrackedObject) (obj : TrackedObject) (x1 y1 x2 y2 : num) :
  getContext canvas = Some ctx ->
  In obj objs ->
  bbox obj = (x1, y1, x2, y2) ->
  exists canvas' ops,
    draw (Some canvas) (Some video) objs = Some (canvas', ops)
    /\ (let sx := scaleX canvas' video in
        let sy := scaleY canvas' video in
        let sx1 := (x1 * sx)%Qc in
        let sy1 := (y1 * sy)%Qc in
        let sx2 := (x2 * sx)%Qc in
        let sy2 := (y2 * sy)%Qc in
        let mx := ((sx1 + sx2) / num_of_Z 2)%Qc in
        let my := ((sy1 + sy2) / num_of_Z 2)%Qc in
        let color := color_of (id obj) in
        let text :=
          ("ID:" +:+ Number_toString (id obj) +:+ " " +:+ class obj)
          +:+ " "
          +:+ toFixed0 (times (double (this (confidence obj)))
                              (Finite (num_of_Z 100)))
          +:+ "%" in
        exists before after tl_y tl_x tr_x tr_y bl_y bl_x br_x br_y,
          ops = before
                ++ [ set_strokeStyle color;
                     set_lineWidth (num_of_Z 3);
                     strokeRect sx1 sy1 (sx2 - sx1)%Qc (sy2 - sy1)%Qc;
                     set_lineWidth (num_of_Z 4);
                     beginPath;
                     moveTo sx1 tl_y; lineTo sx1 sy1; lineTo tl_x sy1;
                     stroke;
                     beginPath;
                     moveTo tr_x sy1; lineTo sx2 sy1; lineTo sx2 tr_y;
                     stroke;
                     beginPath;
                     moveTo sx1 bl_y; lineTo sx1 sy2; lineTo bl_x sy2;
                     stroke;
                     beginPath;
                     moveTo br_x sy2; lineTo sx2 sy2; lineTo sx2 br_y;
                     stroke;
                     set_font "bold 14px Inter, sans-serif";
                     set_fillStyle color;
                     fillRect sx1 (sy1 - num_of_Z 24 - num_of_Z 4)%Qc
                       (measureText ctx text + num_of_Z 8 * num_of_Z 2)%Qc
                       (num_of_Z 24);
                     set_fillStyle (Some "#FFFFFF");
                     fillText text (sx1 + num_of_Z 8)%Qc
                       (sy1 - num_of_Z 8)%Qc ]
                ++ draw_trajectory sx sy obj
                ++ after
          /\ ((sx1 < sx2)%Qc -> (sy1 < sy2)%Qc ->
              ((sy1 < tl_y)%Qc /\ (tl_y < my)%Qc)
              /\ ((sx1 < tl_x)%Qc /\ (tl_x < mx)%Qc)
              /\ ((mx < tr_x)%Qc /\ (tr_x < sx2)%Qc)
              /\ ((sy1 < tr_y)%Qc /\ (tr_y < my)%Qc)
              /\ ((my < bl_y)%Qc /\ (bl_y < sy2)%Qc)
              /\ ((sx1 < bl_x)%Qc /\ (bl_x < mx)%Qc)
              /\ ((mx < br_x)%Qc /\ (br_x < sx2)%Qc)
              /\ ((my < br_y)%Qc /\ (br_y < sy2)%Qc))
          /\ (forall c,
                draw_box sx sy (with_confidence c obj) = draw_box sx sy obj
                /\ draw_corners sx sy (with_confidence c obj)
                   = draw_corners sx sy obj))
    /\ (forall url_accepted c1 c2 es s,
          wsUrl c1 = wsUrl c2 ->
          run url_accepted c1 es s = run url_accepted c2 es s).
Proof.
  intros Hctx Hin Hbox.
  eexists _, _. split; [apply draw_Some; eassumption|].
  split; [|intros; apply run_config_irrelevant; assumption].
  cbv zeta.
  set (sx := scaleX (match_video canvas video) video).
  set (sy := scaleY (match_video canvas video) video).
  set (a := (x1 * sx)%Qc). set (b := (x2 * sx)%Qc).
  set (c := (y1 * sy)%Qc). set (d := (y2 * sy)%Qc).
  set (cl := (Math_min (b - a) (d - c) * Q2Qc (2 # 10))%Qc).
  destruct (draw_object_in_draw ctx sx sy obj objs Hin)
    as (before & after & Hsplit).
  exists (clearRect (num_of_Z 0) (num_of_Z 0)
            (num_of_N (width (match_video canvas video)))
            (num_of_N (height (match_video canvas video))) :: before), after,
         (c + cl)%Qc, (a + cl)%Qc, (b - cl)%Qc, (c + cl)%Qc,
         (d - cl)%Qc, (a + cl)%Qc, (b - cl)%Qc, (d - cl)%Qc.
  split; [|split].
  - rewrite Hsplit.
    unfold draw_object, draw_box, draw_corners, draw_label, fullLabel,
      scaled_bbox.
    rewrite Hbox. cbv zeta. fold a b c d cl.
    rewrite <- !app_assoc. reflexivity.
  - intros Hab Hcd.
    destruct (corner_length_inside (b - a)%Qc (d - c)%Qc) as (H0 & Hw & Hh).
    { unfold Qclt in *. change (this (num_of_Z 0)) with 0%Q.
      rewrite this_minus. lra. }
    { unfold Qclt in *. change (this (num_of_Z 0)) with 0%Q.
      rewrite this_minus. lra. }
    fold cl in H0, Hw, Hh. rewrite this_minus in Hw, Hh.
    unfold Qclt in *.
    rewrite ?this_half, ?this_plus, ?this_minus.
    repeat split; lra.
  - intros conf. split; reflexivity.
Qed.

Lemma draw_every_object_witness :
  let unsure := with_confidence (num_of_Z 0) sample_object in
  exists canvas' ops,
    draw (Some (mkCanvas 640 480 (Some sample_context)))
         (Some (mkVideo 640 480)) [sample_object; unsure]
    = Some (canvas', ops)
    /\ fullLabel unsure = "ID:7 car 0%"
    /\ (exists x y, In (fillText "ID:7 car 0%" x y) ops)
    /\ length (List.filter is_stroke ops) = 8%nat.
Proof.
  intros unsure.
  destruct (draw_every_object (mkCanvas 640 480 (Some sample_context))
              (mkVideo 640 480) sample_context [sample_object; unsure] unsure
              (num_of_Z 100) (num_of_Z 50) (num_of_Z 200) (num_of_Z 150)
              eq_refl)
    as (canvas' & ops & Hdraw & Hseg & _).
  { right. left. reflexivity. }
  { reflexivity. }
  exists canvas', ops. split; [exact Hdraw|].
  assert (fullLabel unsure = "ID:7 car 0%") as Hl by (vm_compute; reflexivity).
  split; [exact Hl|]. split.
  - cbv zeta in Hseg.
    destruct Hseg as (before & after & ? & ? & ? & ? & ? & ? & ? & ? & -> & _).
    change (("ID:" +:+ Number_toString (id unsure) +:+ " " +:+ class unsure)
            +:+ " "
            +:+ toFixed0 (times (double (this (confidence unsure)))
                                (Finite (num_of_Z 100)))
            +:+ "%") with (fullLabel unsure).
    rewrite Hl. do 2 eexists.
    apply in_or_app. right. apply in_or_app. left.
    do 28 right. left. reflexivity.
  - injection Hdraw as _ <-. reflexivity.
Defined.

(** * Further properties of the stream session *)

Lemma Math_round_div (a b : Z) :
  0 < b -> Math_round (num_of_Z a / num_of_Z b)%Qc = (2 * a + b) / (2 * b).
Proof.
  intros Hb. unfold Math_round, num_of_Z.
  assert (this (Q2Qc (inject_Z a) / Q2Qc (inject_Z b))%Qc + (1 # 2)
          == (2 * a + b) # (Z.to_pos (2 * b)))%Q as E.
  { unfold Qcdiv, Qcmult, Qcinv. cbn [this Q2Qc].
    rewrite !Qred_correct.
    assert (inject_Z b == b # 1)%Q as -> by reflexivity.
    destruct b as [|p|p]; try lia.
    unfold Qeq, Qplus, Qmult, Qinv, inject_Z. simpl. lia. }
  rewrite E. unfold Qfloor. rewrite Z2Pos.id by lia. reflexivity.
Qed.

Lemma transmissions_insert (l : list WebSocket) : forall w ws ws',
  l !! w = Some ws ->
  (sum_list (map (fun x => length (sent x)) (<[w := ws']> l))
   + length (sent ws)
   = sum_list (map (fun x => length (sent x)) l) + length (sent ws'))%nat.
Proof.
  induction l as [|x l IH]; intros w ws ws' Hw; [discriminate|].
  destruct w as [|w]; simpl in *.
  - injection Hw as ->. lia.
  - specialize (IH w ws ws' Hw). lia.
Qed.

Lemma ws_send_transmissions_open w m s :
  ready w s = Some OPEN ->
  transmissions (ws_send w m s) = S (transmissions s).
Proof.
  intros Hr. apply ready_Some in Hr as (ws & Hw & Ho).
  rewrite (ws_send_open w m s ws Hw Ho).
  unfold transmissions. cbn [sockets set_sockets].
  pose proof (transmissions_insert (sockets s) w ws
                (mkWebSocket (url ws) OPEN (sent ws ++ [m])) Hw) as H.
  cbn [sent] in H. rewrite length_app in H. simpl in H. lia.
Qed.

Lemma ws_send_not_open w m s :
  ready w s <> Some OPEN -> ws_send w m s = s.
Proof.
  intros Hr. unfold ws_send, ready in *.
  destruct (sockets s !! w) as [ws|]; [|reflexivity].
  destruct (decide (readyState ws = OPEN)) as [Ho|]; [|reflexivity].
  contradiction Hr. simpl. rewrite Ho. reflexivity.
Qed.

(** X1.  Handling an inbound message never acts on the connection: whatever
    the payload, the sockets (and so what was sent), the current socket, the
    timers and the two connection flags are as before. *)
Theorem onmessage_leaves_connection (data : option Inbound) (now : Z)
    (s : State) :
  let s' := onmessage data now s in
  sockets s' = sockets s
  /\ wsRef s' = wsRef s
  /\ intervals s' = intervals s
  /\ pingIntervalRef s' = pingIntervalRef s
  /\ nextTimer s' = nextTimer s
  /\ isConnected s' = isConnected s
  /\ isProcessing s' = isProcessing s
  /\ transmissions s' = transmissions s.
Proof.
  unfold onmessage. destruct data as [d|]; [|repeat split].
  destruct (decide (msg_type d = Some "pong")); [repeat split|].
  destruct (truthy (msg_error d)); [repeat split|].
  destruct (msg_objects d); [|repeat split].
  cbv zeta. destruct (1000 <=? _); repeat split.
Qed.

(** X2.  When the WebSocket constructor rejects the URL, [startTracking]
    creates no socket and keeps the current one; it records the failure as
    the error and has still reset the FPS accounting. *)
Theorem startTracking_rejected_url (url_accepted : string -> bool)
    (config : TrackingConfig) (now : Z) (s : State) :
  url_accepted (wsUrl config) = false ->
  let s' := startTracking url_accepted config now s in
  sockets s' = sockets s
  /\ wsRef s' = wsRef s
  /\ live_connections s' = live_connections s
  /\ error s' = Some "Failed to connect to tracking server"
  /\ frameCountRef s' = 0
  /\ lastTimeRef s' = now
  /\ trackedObjects s' = trackedObjects s
  /\ fps s' = fps s.
Proof.
  intros Hurl. unfold startTracking, connectWebSocket. rewrite Hurl.
  repeat split.
Qed.

Lemma startTracking_rejected_url_witness :
  let s := run accept_all sample_config [StartTracking 0; WsOpen 0] (mount 0) in
  let s' := startTracking (fun _ => false) sample_config 7 s in
  sessionState s' = Open /\ length (sockets s') = 1%nat
  /\ error s' = Some "Failed to connect to tracking server".
Proof.
  intros s s'. subst s'.
  destruct (startTracking_rejected_url (fun _ => false) sample_config 7 s
              eq_refl) as (Hs & Hw & _ & He & _).
  split; [reflexivity|]. split; [rewrite Hs; reflexivity | exact He].
Defined.

(** X3.  The keepalive callback pings only an open socket.  A tick of a
    live timer whose socket is open appends exactly one ping to that
    socket's record; a tick of a cancelled timer, or of one whose socket is
    not open, changes nothing at all.  In particular a timer is inert once
    [clearInterval] ran. *)
Theorem keepalive_pings_only_open (t : positive) (s : State) :
  (forall w ws,
     intervals s !! t = Some w -> sockets s !! w = Some ws ->
     readyState ws = OPEN ->
     fire_interval t s
     = set_sockets
         (<[w := mkWebSocket (url ws) OPEN (sent ws ++ [Ping])]> (sockets s)) s
     /\ transmissions (fire_interval t s) = S (transmissions s))
  /\ (intervals s !! t = None -> fire_interval t s = s)
  /\ (forall w, intervals s !! t = Some w -> ready w s <> Some OPEN ->
        fire_interval t s = s)
  /\ fire_interval t (clearInterval t s) = clearInterval t s.
Proof.
  unfold fire_interval, ping. split; [|split; [|split]].
  - intros w ws Ht Hw Ho. rewrite Ht.
    assert (ready w s = Some OPEN) as Hr by (apply ready_Some; eauto).
    rewrite Hr. split; [apply ws_send_open; assumption|].
    apply ws_send_transmissions_open. assumption.
  - intros ->. reflexivity.
  - intros w -> Hr. destruct (ready w s) as [[]|]; congruence.
  - simpl. rewrite lookup_delete_eq. reflexivity.
Qed.

Lemma keepalive_pings_only_open_witness :
  let s := run accept_all sample_config [StartTracking 0; WsOpen 0] (mount 0) in
  transmissions (fire_interval 1 s) = 1%nat
  /\ fire_interval 1 (stopTracking s) = stopTracking s.
Proof.
  intros s.
  destruct (keepalive_pings_only_open 1 s) as (Hopen & _ & _ & _).
  destruct (Hopen 0%nat (mkWebSocket "ws://localhost:8000/ws" OPEN [])
              eq_refl eq_refl eq_refl) as (_ & Ht).
  split; [exact Ht|].
  destruct (keepalive_pings_only_open 1 (stopTracking s)) as (_ & Hnone & _).
  apply Hnone. reflexivity.
Defined.

Lemma transmissions_insert_same s w ws ws' :
  sockets s !! w = Some ws -> sent ws' = sent ws ->
  transmissions (set_sockets (<[w := ws']> (sockets s)) s) = transmissions s.
Proof.
  intros Hw Hs. unfold transmissions. cbn [sockets set_sockets].
  pose proof (transmissions_insert (sockets s) w ws ws' Hw) as H.
  rewrite Hs in H. lia.
Qed.

Lemma set_ready_transmissions w r s :
  transmissions (set_ready w r s) = transmissions s.
Proof.
  unfold set_ready. destruct (sockets s !! w) as [ws|] eqn:Hw; [|reflexivity].
  eapply transmissions_insert_same; [eassumption|reflexivity].
Qed.

Lemma ws_close_transmissions w s :
  transmissions (ws_close w s) = transmissions s.
Proof.
  unfold ws_close. destruct (sockets s !! w) as [ws|] eqn:Hw; [|reflexivity].
  eapply transmissions_insert_same; [eassumption|].
  unfold close_socket. destruct (readyState ws); reflexivity.
Qed.

Lemma onclose_transmissions s : transmissions (onclose s) = transmissions s.
Proof.
  unfold transmissions. f_equal. f_equal. apply onclose_effect.
Qed.

Lemma stopTracking_transmissions s :
  transmissions (stopTracking s) = transmissions s.
Proof.
  unfold transmissions at 1. rewrite sockets_stopTracking.
  destruct (wsRef s) as [w|]; [|reflexivity].
  destruct (sockets s !! w) as [ws|] eqn:Hw; [|reflexivity].
  change (transmissions (set_sockets (<[w := close_socket ws]> (sockets s)) s)
          = transmissions s).
  eapply transmissions_insert_same; [eassumption|].
  unfold close_socket. destruct (readyState ws); reflexivity.
Qed.

Lemma step_transmissions url_accepted config e s :
  (transmissions s <= transmissions (step url_accepted config e s))%nat
  /\ (transmissions (step url_accepted config e s)
      <= transmissions s + (if may_transmit e then 1 else 0))%nat.
Proof.
  destruct e as [now| |fd now|w|w data now|w failed|t]; simpl.
  - unfold startTracking, connectWebSocket.
    destruct (url_accepted _); unfold transmissions; simpl;
      rewrite ?map_app, ?sum_list_with_app; simpl; lia.
  - rewrite stopTracking_transmissions. lia.
  - unfold sendFrame. destruct (wsRef s) as [w|]; [|lia].
    destruct (ready w s) as [[]|] eqn:Hr; try lia.
    rewrite ws_send_transmissions_open by assumption. lia.
  - unfold deliver_open. destruct (ready w s) as [[]|]; try lia.
    change (transmissions (onopen w (set_ready w OPEN s)))
      with (transmissions (set_ready w OPEN s)).
    rewrite set_ready_transmissions. lia.
  - unfold deliver_message. destruct (ready w s) as [[]|]; try lia.
    unfold transmissions.
    destruct (onmessage_effect data now s) as (-> & _). lia.
  - unfold deliver_closed.
    assert (transmissions
              (onclose (if failed then onerror (set_ready w CLOSED s)
                        else set_ready w CLOSED s))
            = transmissions s) as E.
    { rewrite onclose_transmissions.
      destruct failed;
        [change (transmissions (onerror (set_ready w CLOSED s)))
           with (transmissions (set_ready w CLOSED s))|];
        apply set_ready_transmissions. }
    destruct (ready w s) as [[]|]; rewrite ?E; lia.
  - unfold fire_interval. destruct (intervals s !! t) as [w|]; [|lia].
    unfold ping. destruct (ready w s) as [[]|] eqn:Hr; try lia.
    rewrite ws_send_transmissions_open by assumption. lia.
Qed.

(** X4.  Over any sequence of events the count of transmitted messages
    never goes down, and it goes up by at most one per [sendFrame] call or
    timer tick in the sequence: nothing else ever sends. *)
Theorem transmissions_bounded (url_accepted : string -> bool)
    (config : TrackingConfig) (es : list Event) (s : State) :
  (transmissions s <= transmissions (run url_accepted config es s))%nat
  /\ (transmissions (run url_accepted config es s)
      <= transmissions s + length (List.filter may_transmit es))%nat.
Proof.
  revert s. induction es as [|e es IH]; intros s; [simpl; lia|].
  change (run url_accepted config (e :: es) s)
    with (run url_accepted config es (step url_accepted config e s)).
  destruct (IH (step url_accepted config e s)) as (Hlo & Hhi).
  destruct (step_transmissions url_accepted config e s) as (Hlo1 & Hhi1).
  simpl. destruct (may_transmit e); simpl; lia.
Qed.

Lemma transmissions_bounded_witness :
  let es := [StartTracking 0; SendFrame "early" 1; WsOpen 0;
             SendFrame "a" 2; Tick 1; WsMessage 0 (results [sample_object]) 3;
             StopTracking; SendFrame "late" 4; Tick 1] in
  transmissions (run accept_all sample_config es (mount 0)) = 2%nat
  /\ (transmissions (run accept_all sample_config es (mount 0)) <= 0 + 5)%nat.
Proof.
  intros es. split; [reflexivity|].
  exact (proj2 (transmissions_bounded accept_all sample_config es (mount 0))).
Defined.

(** *** Reachable states are well formed *)

Lemma Math_round_div_nonneg a b : 0 <= a -> 0 < b ->
  0 <= Math_round (num_of_Z a / num_of_Z b)%Qc.
Proof.
  intros Ha Hb. rewrite Math_round_div by assumption.
  apply Z.div_pos; lia.
Qed.

Lemma well_formed_sockets s socks :
  length socks = length (sockets s) ->
  well_formed s -> well_formed (set_sockets socks s).
Proof.
  intros Hl (Hw & Hi & Hp & Hc & Hf). unfold well_formed. simpl.
  rewrite Hl. auto.
Qed.

Lemma well_formed_ws_send w m s : well_formed s -> well_formed (ws_send w m s).
Proof.
  intros H. unfold ws_send. destruct (sockets s !! w) as [ws|]; [|exact H].
  destruct (decide _); [|exact H].
  apply well_formed_sockets; [apply length_insert | exact H].
Qed.

Lemma well_formed_set_ready w r s :
  well_formed s -> well_formed (set_ready w r s).
Proof.
  intros H. unfold set_ready. destruct (sockets s !! w) as [ws|]; [|exact H].
  apply well_formed_sockets; [apply length_insert | exact H].
Qed.

Lemma well_formed_ws_close w s : well_formed s -> well_formed (ws_close w s).
Proof.
  intros H. unfold ws_close. destruct (sockets s !! w) as [ws|]; [|exact H].
  apply well_formed_sockets; [apply length_insert | exact H].
Qed.

Lemma well_formed_clearInterval t s :
  well_formed s -> well_formed (clearInterval t s).
Proof.
  intros (Hw & Hi & Hp & Hc & Hf). unfold well_formed. simpl.
  split; [|split; [|split; [|split]]]; auto.
  intros k w Hk. apply lookup_delete_Some in Hk as [_ Hk]. apply (Hi k w Hk).
Qed.

Lemma well_formed_onclose s : well_formed s -> well_formed (onclose s).
Proof.
  intros H. unfold onclose. cbv zeta.
  assert (well_formed (setIsProcessing false (setIsConnected false s))) as H1
    by exact H.
  destruct (pingIntervalRef _); [apply well_formed_clearInterval|]; exact H1.
Qed.

Lemma well_formed_onopen w s :
  (w < length (sockets s))%nat -> well_formed s -> well_formed (onopen w s).
Proof.
  intros Hlt (Hw & Hi & Hp & Hc & Hf). unfold onopen, well_formed. simpl.
  split; [|split; [|split; [|split]]]; auto.
  - intros k w0 H.
    apply lookup_insert_Some in H as [[<- <-]|[_ H]]; [split; [assumption|lia]|].
    destruct (Hi k w0 H). split; [assumption|lia].
  - intros k [= <-]. lia.
Qed.

Lemma well_formed_onmessage data now s :
  well_formed s -> well_formed (onmessage data now s).
Proof.
  intros H. pose proof H as (Hw & Hi & Hp & Hc & Hf).
  unfold onmessage. destruct data as [d|]; [|exact H].
  destruct (decide _); [exact H|].
  destruct (truthy _); [exact H|].
  destruct (msg_objects d); [|exact H].
  cbv zeta. destruct (1000 <=? _) eqn:Hd.
  - apply Z.leb_le in Hd. simpl in Hd. unfold well_formed. simpl.
    split; [|split; [|split; [|split]]]; auto; try lia.
    apply Math_round_div_nonneg; lia.
  - unfold well_formed. simpl.
    split; [|split; [|split; [|split]]]; auto; lia.
Qed.

Lemma well_formed_forget_socket s :
  well_formed s ->
  well_formed match wsRef s with
              | Some w => set_wsRef None (ws_close w s)
              | None => s
              end.
Proof.
  intros H. destruct (wsRef s) as [w|]; [|exact H].
  pose proof (well_formed_ws_close w s H) as (Hw & Hi & Hp & Hc & Hf).
  unfold well_formed. simpl.
  split; [|split; [|split; [|split]]]; auto. discriminate.
Qed.

Lemma well_formed_stopTracking s : well_formed s -> well_formed (stopTracking s).
Proof.
  intros H. pose proof H as (Hw & Hi & Hp & Hc & Hf).
  assert (well_formed
            (setFps 0 (setTrackedObjects [] (setIsProcessing false s))))
    as H1.
  { unfold well_formed. simpl.
    split; [|split; [|split; [|split]]]; auto; lia. }
  unfold stopTracking. cbv zeta.
  apply well_formed_forget_socket.
  destruct (pingIntervalRef _); [apply well_formed_clearInterval|]; exact H1.
Qed.

Lemma well_formed_step url_accepted config e s :
  well_formed s -> well_formed (step url_accepted config e s).
Proof.
  intros H. pose proof H as (Hw & Hi & Hp & Hc & Hf).
  destruct e as [now| |fd now|w|w data now|w failed|t]; simpl.
  - unfold startTracking, connectWebSocket.
    destruct (url_accepted _); unfold well_formed; simpl;
      rewrite ?length_app; simpl;
      (split; [|split; [|split; [|split]]]); auto; try lia.
    + intros w [= <-]. lia.
    + intros k w Hk. destruct (Hi k w Hk). split; [lia|assumption].
  - apply well_formed_stopTracking, H.
  - unfold sendFrame. destruct (wsRef s) as [w|]; [|exact H].
    destruct (ready w s) as [[]|]; try exact H.
    apply well_formed_ws_send, H.
  - unfold deliver_open. destruct (ready w s) as [[]|] eqn:Hr; try exact H.
    apply ready_Some in Hr as (ws & Hws & _).
    apply well_formed_onopen; [|apply well_formed_set_ready, H].
    unfold set_ready. rewrite Hws. simpl. rewrite length_insert.
    eapply lookup_lt_Some; eassumption.
  - unfold deliver_message. destruct (ready w s) as [[]|]; try exact H.
    apply well_formed_onmessage, H.
  - unfold deliver_closed.
    assert (well_formed
              (onclose (if failed then onerror (set_ready w CLOSED s)
                        else set_ready w CLOSED s))) as H1.
    { apply well_formed_onclose.
      destruct failed; [|apply well_formed_set_ready, H].
      exact (well_formed_set_ready w CLOSED s H). }
    destruct (ready w s) as [[]|]; assumption.
  - unfold fire_interval. destruct (intervals s !! t) as [w|]; [|exact H].
    unfold ping. destruct (ready w s) as [[]|]; try exact H.
    apply well_formed_ws_send, H.
Qed.

Lemma well_formed_mount t : well_formed (mount t).
Proof.
  unfold well_formed, mount. simpl.
  split; [|split; [|split; [|split]]]; try lia; discriminate.
Qed.

Lemma well_formed_run url_accepted config es : forall s,
  well_formed s -> well_formed (run url_accepted config es s).
Proof.
  induction es as [|e es IH]; intros s Hs; [exact Hs|].
  apply (IH (step url_accepted config e s)).
  apply well_formed_step, Hs.
Qed.

(** X5.  Every state the hook can reach from mounting is well formed:
    [wsRef] and every live timer point at a socket that exists, every timer
    id in use is older than the next id to be issued, and neither the
    window counter nor the reported FPS is ever negative. *)
Theorem reachable_well_formed (url_accepted : string -> bool)
    (config : TrackingConfig) (t : Z) (es : list Event) :
  well_formed (run url_accepted config es (mount t)).
Proof. apply well_formed_run, well_formed_mount. Qed.

Lemma reachable_well_formed_witness :
  well_formed (run accept_all sample_config
                 [StartTracking 0; WsOpen 0;
                  WsMessage 0 (results [sample_object]) 1200; StopTracking]
                 (mount 0)).
Proof. exact (reachable_well_formed accept_all sample_config 0 _). Defined.

(** X6.  The reported FPS never exceeds the number of results messages
    counted in the window that produced it: when a message changes the FPS
    at all, at least 1000 ms have passed and the new value lies between 0
    and the counter including that message. *)
Theorem fps_at_most_counted (data : option Inbound) (now : Z) (s : State) :
  0 <= frameCountRef s ->
  let s' := onmessage data now s in
  fps s' = fps s
  \/ (1000 <= now - lastTimeRef s /\ 0 <= fps s' <= frameCountRef s + 1).
Proof.
  intros Hc. unfold onmessage. destruct data as [d|]; [|left; reflexivity].
  destruct (decide _); [left; reflexivity|].
  destruct (truthy _); [left; reflexivity|].
  destruct (msg_objects d); [|left; reflexivity].
  cbv zeta. destruct (1000 <=? _) eqn:Hd; [|left; reflexivity].
  apply Z.leb_le in Hd. simpl in Hd. right. split; [exact Hd|]. simpl.
  rewrite Math_round_div by lia.
  split; [apply Z.div_pos; lia|].
  apply Z.lt_succ_r. apply Z.div_lt_upper_bound; [lia|]. nia.
Qed.

Lemma fps_at_most_counted_witness :
  let s := run accept_all sample_config
             [StartTracking 0; WsOpen 0;
              WsMessage 0 (results [sample_object]) 400;
              WsMessage 0 (results [sample_object]) 800] (mount 0) in
  frameCountRef s = 2
  /\ fps (onmessage (results [sample_object]) 1300 s) = 2.
Proof.
  intros s. split; [reflexivity|].
  destruct (fps_at_most_counted (results [sample_object]) 1300 s) as [H|H].
  - vm_compute. discriminate.
  - vm_compute. reflexivity.
  - vm_compute. reflexivity.
Defined.

(** *** One connection at a time *)

Lemma none_live (l : list WebSocket) :
  (forall i ws, l !! i = Some ws -> live ws = false) ->
  filter (fun ws => live ws = true) l = [].
Proof.
  induction l as [|x l IH]; intros H; [reflexivity|].
  rewrite filter_cons, decide_False.
  - apply IH. intros i ws Hi. apply (H (S i) ws Hi).
  - rewrite (H 0%nat x eq_refl). discriminate.
Qed.

Lemma at_most_one_live (l : list WebSocket) : forall current,
  (forall i ws, l !! i = Some ws -> current <> Some i -> live ws = false) ->
  (length (filter (fun ws => live ws = true) l) <= 1)%nat.
Proof.
  induction l as [|x l IH]; intros current H; [simpl; lia|].
  rewrite filter_cons. destruct (decide (live x = true)) as [Hx|Hx].
  - assert (current = Some 0%nat) as ->.
    { destruct (decide (current = Some 0%nat)) as [|Hne]; [assumption|].
      specialize (H 0%nat x eq_refl Hne). congruence. }
    rewrite none_live; [simpl; lia|].
    intros i ws Hi. apply (H (S i) ws Hi). discriminate.
  - apply (IH (match current with
               | Some (S i) => Some i
               | _ => None
               end)).
    intros i ws Hi Hne. apply (H (S i) ws Hi).
    intros ->. contradiction Hne. reflexivity.
Qed.

(** X7.  As long as [startTracking] is never called twice without a
    [stopTracking] in between, the session has at most one live connection
    in every state it reaches, and that one is the current socket. *)
Theorem single_live_connection (url_accepted : string -> bool)
    (config : TrackingConfig) (t : Z) (es : list Event) :
  no_double_start false es = true ->
  let s := run url_accepted config es (mount t) in
  (live_connections s <= 1)%nat
  /\ (forall w ws, sockets s !! w = Some ws -> live ws = true ->
        wsRef s = Some w).
Proof.
  intros Hes s.
  assert (others_closed s) as Ho.
  { apply (no_double_start_others_closed url_accepted config es false);
      [|reflexivity|exact Hes].
    intros w ws Hw. discriminate Hw. }
  split.
  - unfold live_connections. apply (at_most_one_live _ (wsRef s)).
    intros i ws Hi Hne. apply (Ho i ws Hi Hne).
  - intros w ws Hw Hl.
    destruct (decide (wsRef s = Some w)) as [|Hne]; [assumption|].
    rewrite (Ho w ws Hw Hne) in Hl. discriminate.
Qed.

Lemma single_live_connection_witness :
  let s := run accept_all sample_config
             [StartTracking 0; WsOpen 0; StopTracking; StartTracking 9;
              WsClosed 0 false; WsOpen 1] (mount 0) in
  map readyState (sockets s) = [CLOSED; OPEN]
  /\ (live_connections s <= 1)%nat.
Proof.
  intros s. split; [reflexivity|].
  refine (proj1 (single_live_connection accept_all sample_config 0 _ _)).
  reflexivity.
Defined.

(** *** Opening and losing the transport *)

Lemma set_ready_lookup w r s ws :
  sockets s !! w = Some ws ->
  sockets (set_ready w r s) !! w = Some (mkWebSocket (url ws) r (sent ws)).
Proof.
  intros Hw. unfold set_ready. rewrite Hw. simpl.
  apply list_lookup_insert_eq. eapply lookup_lt_Some; eassumption.
Qed.

(** X8.  When the browser reports the transport gone -- closed by the
    service or failed -- the socket is closed, both connection flags drop,
    the timer held in [pingIntervalRef] is cancelled and a failure also
    records the connection error.  The tracked objects, the FPS and [wsRef]
    are left as they were, and [sendFrame] is a no-op from then on if the
    socket was the current one. *)
Theorem transport_closed (w : nat) (failed : bool) (s : State)
    (ws : WebSocket) :
  sockets s !! w = Some ws ->
  readyState ws <> CLOSED ->
  let s' := deliver_closed w failed s in
  sockets s' !! w = Some (mkWebSocket (url ws) CLOSED (sent ws))
  /\ isConnected s' = false
  /\ isProcessing s' = false
  /\ (forall k, pingIntervalRef s = Some k -> intervals s' !! k = None)
  /\ error s'
     = (if failed then Some "Connection error. Please check your network."
        else error s)
  /\ trackedObjects s' = trackedObjects s
  /\ fps s' = fps s
  /\ wsRef s' = wsRef s
  /\ (wsRef s = Some w ->
      forall frameData now, sendFrame frameData now s' = s').
Proof.
  intros Hw Hr s'.
  assert (s' = onclose (if failed then onerror (set_ready w CLOSED s)
                        else set_ready w CLOSED s)) as ->.
  { subst s'. unfold deliver_closed, ready. rewrite Hw. simpl.
    destruct (readyState ws); try reflexivity. contradiction. }
  pose proof (set_ready_lookup w CLOSED s ws Hw) as Hw1.
  set (s1 := set_ready w CLOSED s) in *.
  assert (pingIntervalRef s1 = pingIntervalRef s
          /\ error s1 = error s /\ trackedObjects s1 = trackedObjects s
          /\ fps s1 = fps s /\ wsRef s1 = wsRef s)
    as (Hp1 & He1 & Ho1 & Hf1 & Hr1).
  { subst s1. unfold set_ready. rewrite Hw. repeat split. }
  set (s2 := if failed then onerror s1 else s1).
  assert (sockets s2 = sockets s1 /\ pingIntervalRef s2 = pingIntervalRef s1
          /\ trackedObjects s2 = trackedObjects s1 /\ fps s2 = fps s1
          /\ wsRef s2 = wsRef s1
          /\ error s2 = (if failed
                         then Some "Connection error. Please check your network."
                         else error s1))
    as (Hs2 & Hp2 & Ho2 & Hf2 & Hr2 & He2).
  { subst s2. destruct failed; repeat split. }
  destruct (onclose_effect s2) as (Hs3 & Hr3).
  assert (sockets (onclose s2) !! w
          = Some (mkWebSocket (url ws) CLOSED (sent ws))) as Hw3
    by (rewrite Hs3, Hs2; exact Hw1).
  split; [exact Hw3|].
  unfold onclose in *. cbv zeta in *.
  destruct (pingIntervalRef (setIsProcessing false (setIsConnected false s2)))
    as [k0|] eqn:Hk;
    change (pingIntervalRef (setIsProcessing false (setIsConnected false s2)))
      with (pingIntervalRef s2) in Hk;
    rewrite Hp2, Hp1 in Hk.
  - simpl. repeat split; try congruence.
    + intros k Hk'. rewrite Hk in Hk'. injection Hk' as <-.
      apply lookup_delete_eq.
    + rewrite He2. destruct failed; congruence.
    + intros Href fd now. unfold sendFrame. simpl.
      rewrite Hr2, Hr1, Href. unfold ready. simpl in Hw3. simpl.
      rewrite Hw3. reflexivity.
  - simpl. repeat split; try congruence.
    + rewrite He2. destruct failed; congruence.
    + intros Href fd now. unfold sendFrame. simpl.
      rewrite Hr2, Hr1, Href. unfold ready. simpl in Hw3. simpl.
      rewrite Hw3. reflexivity.
Qed.

Lemma transport_closed_witness :
  let s := run accept_all sample_config
             [StartTracking 0; WsOpen 0;
              WsMessage 0 (results [sample_object]) 5] (mount 0) in
  let s' := deliver_closed 0 true s in
  trackedObjects s' = [sample_object]
  /\ isConnected s' = false
  /\ sendFrame "f" 9 s' = s'.
Proof.
  intros s s'. subst s'.
  destruct (transport_closed 0 true s
              (mkWebSocket "ws://localhost:8000/ws" OPEN []))
    as (_ & Hc & _ & _ & _ & Ho & _ & _ & Hsend);
    [reflexivity | discriminate |].
  split; [rewrite Ho; reflexivity|]. split; [exact Hc|].
  apply Hsend. reflexivity.
Defined.

Lemma close_socket_idem ws : close_socket (close_socket ws) = close_socket ws.
Proof. unfold close_socket. destruct ws as [u [] l]; reflexivity. Qed.

(** X9.  The unmount cleanup cancels the timer held in [pingIntervalRef]
    and closes the current socket, and running it twice is the same as
    running it once.  Unlike [stopTracking] it forgets nothing: [wsRef],
    the tracked objects and the FPS are left in place. *)
Theorem cleanup_idempotent (s : State) :
  let s' := cleanup s in
  (forall k, pingIntervalRef s = Some k -> intervals s' !! k = None)
  /\ (forall w ws, wsRef s = Some w -> sockets s !! w = Some ws ->
        sockets s' !! w = Some (close_socket ws))
  /\ wsRef s' = wsRef s
  /\ trackedObjects s' = trackedObjects s
  /\ fps s' = fps s
  /\ cleanup s' = s'.
Proof.
  destruct s as [objs proc conn f err ws cnt last ping socks ivs next].
  unfold cleanup, ws_close. state_simpl.
  split; [|split; [|split; [|split; [|split]]]].
  - intros k ->. destruct ws as [w|]; state_simpl;
      try destruct (socks !! w); state_simpl; apply lookup_delete_eq.
  - intros w sock -> Hw. destruct ping; state_simpl; rewrite Hw; state_simpl;
      apply list_lookup_insert_eq; eapply lookup_lt_Some; eassumption.
  - destruct ping, ws as [w|]; state_simpl;
      try destruct (socks !! w); reflexivity.
  - destruct ping, ws as [w|]; state_simpl;
      try destruct (socks !! w); reflexivity.
  - destruct ping, ws as [w|]; state_simpl;
      try destruct (socks !! w); reflexivity.
  - destruct ping, ws as [w|]; state_simpl;
      try (destruct (socks !! w) as [sock|] eqn:Hw); state_simpl;
      rewrite ?Hw; state_simpl;
      try (rewrite list_lookup_insert_eq
             by (eapply lookup_lt_Some; eassumption));
      state_simpl;
      rewrite ?delete_delete_eq, ?list_insert_insert_eq, ?close_socket_idem;
      reflexivity.
Qed.

Lemma cleanup_idempotent_witness :
  let s := run accept_all sample_config
             [StartTracking 0; WsOpen 0;
              WsMessage 0 (results [sample_object]) 5] (mount 0) in
  trackedObjects (cleanup s) = [sample_object]
  /\ ready 0 (cleanup s) = Some CLOSING
  /\ cleanup (cleanup s) = cleanup s.
Proof.
  intros s.
  destruct (cleanup_idempotent s) as (_ & Hclose & _ & Ho & _ & Hidem).
  split; [rewrite Ho; reflexivity|].
  split; [|exact Hidem].
  unfold ready.
  rewrite (Hclose 0%nat (mkWebSocket "ws://localhost:8000/ws" OPEN [])
             eq_refl eq_refl).
  reflexivity.
Defined.

(** X10.  On an open session [sendFrame] transmits exactly one message, on
    the current socket: a frame with the given image, the current time and
    the window counter as [frame_id].  Every other socket and every field
    of the hook is untouched. *)
Theorem sendFrame_open_sends_one (frameData : string) (now : Z) (s : State)
    (w : nat) (ws : WebSocket) :
  wsRef s = Some w ->
  sockets s !! w = Some ws ->
  readyState ws = OPEN ->
  let s' := sendFrame frameData now s in
  sockets s' !! w
  = Some (mkWebSocket (url ws) OPEN
            (sent ws ++ [Frame frameData now (frameCountRef s)]))
  /\ (forall i, i <> w -> sockets s' !! i = sockets s !! i)
  /\ transmissions s' = S (transmissions s)
  /\ s' = set_sockets (sockets s') s.
Proof.
  intros Href Hw Ho s'. subst s'.
  rewrite (sendFrame_open frameData now s w ws Href Hw Ho).
  cbn [sockets set_sockets].
  split; [apply list_lookup_insert_eq; eapply lookup_lt_Some; eassumption|].
  split; [intros i Hi; apply list_lookup_insert_ne; congruence|].
  split; [|reflexivity].
  rewrite <- (ws_send_open w (Frame frameData now (frameCountRef s)) s ws Hw Ho).
  apply ws_send_transmissions_open. apply ready_Some. eauto.
Qed.

Lemma sendFrame_open_sends_one_witness :
  let s := run accept_all sample_config [StartTracking 0; WsOpen 0] (mount 0) in
  sent <$> sockets (sendFrame "data:image/jpeg;base64,AAAA" 42 s) !! 0%nat
  = Some [Frame "data:image/jpeg;base64,AAAA" 42 0].
Proof.
  intros s.
  destruct (sendFrame_open_sends_one "data:image/jpeg;base64,AAAA" 42 s 0
              (mkWebSocket "ws://localhost:8000/ws" OPEN [])
              eq_refl eq_refl eq_refl) as (-> & _).
  reflexivity.
Defined.

(** X11.  In a well-formed state, the open event on a connecting socket
    makes it open, raises both connection flags and registers exactly one
    new keepalive timer for that socket under a fresh id, which becomes
    [pingIntervalRef]; the timers already running keep running. *)
Theorem open_starts_keepalive (w : nat) (s : State) (ws : WebSocket) :
  well_formed s ->
  sockets s !! w = Some ws ->
  readyState ws = CONNECTING ->
  let s' := deliver_open w s in
  sockets s' !! w = Some (mkWebSocket (url ws) OPEN (sent ws))
  /\ isConnected s' = true
  /\ isProcessing s' = true
  /\ pingIntervalRef s' = Some (nextTimer s)
  /\ intervals s !! nextTimer s = None
  /\ intervals s' = <[nextTimer s := w]> (intervals s)
  /\ size (intervals s') = S (size (intervals s))
  /\ trackedObjects s' = trackedObjects s.
Proof.
  intros (_ & Hi & _) Hw Hr s'.
  assert (s' = onopen w (set_ready w OPEN s)) as ->.
  { subst s'. unfold deliver_open, ready. rewrite Hw. simpl. rewrite Hr.
    reflexivity. }
  assert (intervals s !! nextTimer s = None) as Hfresh.
  { destruct (intervals s !! nextTimer s) as [w0|] eqn:E; [|reflexivity].
    destruct (Hi _ _ E) as [_ Hlt]. lia. }
  pose proof (set_ready_lookup w OPEN s ws Hw) as Hw1.
  unfold onopen, set_ready in *. rewrite Hw in *. simpl in *.
  repeat split; try assumption.
  apply map_size_insert_None. assumption.
Qed.

Lemma open_starts_keepalive_witness :
  let s := startTracking accept_all sample_config 0 (mount 0) in
  pingIntervalRef (deliver_open 0 s) = Some 1%positive
  /\ size (intervals (deliver_open 0 s)) = 1%nat.
Proof.
  intros s.
  destruct (open_starts_keepalive 0 s
              (mkWebSocket "ws://localhost:8000/ws" CONNECTING []))
    as (_ & _ & _ & Hp & _ & _ & Hsz & _).
  - exact (well_formed_run accept_all sample_config [StartTracking 0] _
             (well_formed_mount 0)).
  - reflexivity.
  - reflexivity.
  - split; [exact Hp | rewrite Hsz; reflexivity].
Defined.

(** * Further properties of the overlay renderer *)

Lemma match_video_idem canvas video :
  match_video (match_video canvas video) video = match_video canvas video.
Proof.
  destruct (match_video_dims canvas video) as (Hw & Hh & _).
  unfold match_video at 1. rewrite Hw, Hh, !N.eqb_refl. reflexivity.
Qed.

Lemma stroked_boxes_app l1 l2 :
  stroked_boxes (l1 ++ l2) = stroked_boxes l1 ++ stroked_boxes l2.
Proof. apply omap_app. Qed.

Lemma stroked_boxes_lineTo_map (f : Point -> CanvasOp) l :
  (forall p, exists x y, f p = lineTo x y) -> stroked_boxes (map f l) = [].
Proof.
  intros Hf. induction l as [|p l IH]; [reflexivity|].
  simpl. destruct (Hf p) as (x & y & ->). exact IH.
Qed.

Lemma Qc_add_sub (a b : num) : (a + (b - a))%Qc = b.
Proof. ring. Qed.

Lemma stroked_boxes_draw_object ctx sx sy obj :
  stroked_boxes (draw_object ctx sx sy obj)
  = [ let '(x1, y1, x2, y2) := bbox obj in
      (this (x1 * sx)%Qc, this (y1 * sy)%Qc,
       this (x2 * sx)%Qc, this (y2 * sy)%Qc) ].
Proof.
  unfold draw_object, draw_box, draw_corners, draw_label, draw_trajectory,
    scaled_bbox.
  destruct (bbox obj) as [[[x1 y1] x2] y2].
  rewrite !stroked_boxes_app.
  assert (stroked_boxes
            match trajectory obj with
            | Some (p0 :: (_ :: _) as rest) =>
                [set_strokeStyle (color_of (id obj));
                 set_lineWidth (num_of_Z 2);
                 setLineDash [num_of_Z 5; num_of_Z 5];
                 set_globalAlpha (Q2Qc (6 # 10)); beginPath;
                 moveTo (px p0 * sx)%Qc (py p0 * sy)%Qc]
                ++ map (fun p => lineTo (px p * sx)%Qc (py p * sy)%Qc) rest
                ++ [stroke; set_globalAlpha (num_of_Z 1); setLineDash []]
            | _ => []
            end = []) as ->.
  { destruct (trajectory obj) as [[|p0 [|p1 rest]]|]; try reflexivity.
    rewrite !stroked_boxes_app.
    rewrite (stroked_boxes_lineTo_map _ (p1 :: rest)); [reflexivity|].
    intros p. eauto. }
  unfold stroked_boxes. cbn [omap list_omap app].
  rewrite !Qc_add_sub. reflexivity.
Qed.

Lemma stroked_boxes_of_draw (canvas : Canvas) (video : Video)
    (ctx : Context2D) (objs : list TrackedObject) :
  getContext canvas = Some ctx ->
  exists canvas' ops,
    draw (Some canvas) (Some video) objs = Some (canvas', ops)
    /\ length (stroked_boxes ops) = length objs
    /\ stroked_boxes ops
       = map (fun obj =>
                let '(x1, y1, x2, y2) := bbox obj in
                (this (x1 * scaleX canvas' video)%Qc,
                 this (y1 * scaleY canvas' video)%Qc,
                 this (x2 * scaleX canvas' video)%Qc,
                 this (y2 * scaleY canvas' video)%Qc)) objs
    /\ (videoWidth video <> 0%N -> videoHeight video <> 0%N ->
        stroked_boxes ops = map box_corners objs).
Proof.
  intros Hctx. eexists _, _. split; [apply draw_Some; eassumption|].
  set (sx := scaleX (match_video canvas video) video).
  set (sy := scaleY (match_video canvas video) video).
  assert (stroked_boxes
            (clearRect (num_of_Z 0) (num_of_Z 0)
               (num_of_N (width (match_video canvas video)))
               (num_of_N (height (match_video canvas video)))
             :: flat_map (draw_object ctx sx sy) objs)
          = map (fun obj =>
                   let '(x1, y1, x2, y2) := bbox obj in
                   (this (x1 * sx)%Qc, this (y1 * sy)%Qc,
                    this (x2 * sx)%Qc, this (y2 * sy)%Qc)) objs) as E.
  { change (stroked_boxes (flat_map (draw_object ctx sx sy) objs) = 
            map (fun obj =>
                   let '(x1, y1, x2, y2) := bbox obj in
                   (this (x1 * sx)%Qc, this (y1 * sy)%Qc,
                    this (x2 * sx)%Qc, this (y2 * sy)%Qc)) objs).
    induction objs as [|obj objs IH]; [reflexivity|].
    cbn [flat_map map]. rewrite stroked_boxes_app, IH.
    rewrite stroked_boxes_draw_object. reflexivity. }
  rewrite E. split; [apply length_map|]. split; [reflexivity|].
  intros Hw Hh. subst sx sy.
  rewrite scaleX_match_video, scaleY_match_video.
  destruct (N.eqb_spec (videoWidth video) 0); [contradiction|].
  destruct (N.eqb_spec (videoHeight video) 0); [contradiction|].
  apply map_ext. intros obj. unfold box_corners.
  destruct (bbox obj) as [[[x1 y1] x2] y2]. rewrite !Qc_mul_1. reflexivity.
Qed.

(** X12.  A redraw strokes exactly one rectangle per tracked object, in the
    order of the list and nothing else: the rectangles drawn are the
    objects' boxes scaled by the two factors, and with a video of non-zero
    size they are the boxes exactly as the service sent them. *)
Theorem draw_boxes_are_snapshot (canvas : Canvas) (video : Video)
    (ctx : Context2D) (objs : list TrackedObject) :
  getContext canvas = Some ctx ->
  exists canvas' ops,
    draw (Some canvas) (Some video) objs = Some (canvas', ops)
    /\ length (stroked_boxes ops) = length objs
    /\ stroked_boxes ops
       = map (fun obj =>
                let '(x1, y1, x2, y2) := bbox obj in
                (this (x1 * scaleX canvas' video)%Qc,
                 this (y1 * scaleY canvas' video)%Qc,
                 this (x2 * scaleX canvas' video)%Qc,
                 this (y2 * scaleY canvas' video)%Qc)) objs
    /\ (videoWidth video <> 0%N -> videoHeight video <> 0%N ->
        stroked_boxes ops = map box_corners objs).
Proof. apply stroked_boxes_of_draw. Qed.

Lemma draw_boxes_are_snapshot_witness :
  exists canvas' ops,
    draw (Some (mkCanvas 300 150 (Some sample_context)))
         (Some (mkVideo 640 480))
         [sample_object; with_confidence (num_of_Z 0) sample_object]
    = Some (canvas', ops)
    /\ stroked_boxes ops
       = [(100 # 1, 50 # 1, 200 # 1, 150 # 1);
          (100 # 1, 50 # 1, 200 # 1, 150 # 1)]%Q.
Proof.
  destruct (draw_boxes_are_snapshot (mkCanvas 300 150 (Some sample_context))
              (mkVideo 640 480) sample_context
              [sample_object; with_confidence (num_of_Z 0) sample_object]
              eq_refl) as (canvas' & ops & Hd & _ & _ & Hb).
  exists canvas', ops. split; [exact Hd|].
  rewrite Hb by discriminate. reflexivity.
Defined.

(** X13.  Redrawing is stable: a second redraw of the same objects on the
    canvas the first one left behind leaves the canvas as it is and makes
    exactly the same context calls. *)
Theorem draw_stable (canvas canvas' : Canvas) (video : Video)
    (objs : list TrackedObject) (ops : list CanvasOp) :
  draw (Some canvas) (Some video) objs = Some (canvas', ops) ->
  draw (Some canvas') (Some video) objs = Some (canvas', ops).
Proof.
  unfold draw. destruct (getContext canvas) as [ctx|] eqn:Hctx; [|discriminate].
  intros [= <- <-].
  destruct (match_video_dims canvas video) as (_ & _ & ->).
  rewrite Hctx, match_video_idem. reflexivity.
Qed.

Lemma draw_stable_witness :
  exists canvas' ops,
    draw (Some (mkCanvas 300 150 (Some sample_context)))
         (Some (mkVideo 640 480)) [sample_object] = Some (canvas', ops)
    /\ draw (Some canvas') (Some (mkVideo 640 480)) [sample_object]
       = Some (canvas', ops).
Proof.
  eexists _, _. split; [reflexivity|].
  apply (draw_stable (mkCanvas 300 150 (Some sample_context))).
  reflexivity.
Defined.

(** *** Colours *)

Lemma COLORS_lookup_inj (i j : nat) (c : string) :
  COLORS !! i = Some c -> COLORS !! j = Some c -> i = j.
Proof.
  intros Hi Hj.
  assert (i < 15)%nat by (apply lookup_lt_Some in Hi; exact Hi).
  assert (j < 15)%nat by (apply lookup_lt_Some in Hj; exact Hj).
  do 15 (destruct i as [|i]; [
    do 15 (destruct j as [|j]; [first [reflexivity | simpl in *; congruence]|]);
    lia|]).
  lia.
Qed.

(** X14.  The colour of an overlay box is a function of the track id
    alone.  Every non-negative id gets a colour of the palette; ids 15 apart
    share it (the palette wraps), while two different ids below 15 never do.
    A negative id that is not a multiple of 15 gets no colour. *)
Theorem color_of_palette (i : Z) :
  (0 <= i ->
   exists c, color_of i = Some c /\ In c COLORS /\ color_of (i + 15) = Some c)
  /\ (forall j, 0 <= i < 15 -> 0 <= j < 15 -> color_of i = color_of j -> i = j)
  /\ (i < 0 -> Z.rem i 15 <> 0 -> color_of i = None).
Proof.
  unfold color_of. change (Z.of_nat (length COLORS)) with 15.
  split; [|split].
  - intros Hi. rewrite !Z.rem_mod_nonneg by lia.
    replace ((i + 15) mod 15) with (i mod 15)
      by (rewrite <- (Z.mod_add i 1 15) by lia; f_equal; lia).
    pose proof (Z.mod_pos_bound i 15 ltac:(lia)) as Hb.
    destruct (Z.ltb_spec (i mod 15) 0); [lia|].
    destruct (COLORS !! Z.to_nat (i mod 15)) as [c|] eqn:E.
    + exists c. split; [reflexivity|]. split; [|reflexivity].
      apply list_elem_of_In, list_elem_of_lookup. eauto.
    + apply lookup_ge_None in E. simpl in E. lia.
  - intros j Hi Hj. rewrite !Z.rem_small by lia.
    destruct (Z.ltb_spec i 0); [lia|]. destruct (Z.ltb_spec j 0); [lia|].
    intros E.
    destruct (COLORS !! Z.to_nat i) as [c|] eqn:Ei.
    + symmetry in E. pose proof (COLORS_lookup_inj _ _ _ Ei E). lia.
    + apply lookup_ge_None in Ei. simpl in Ei. lia.
  - intros Hi Hr.
    pose proof (Z.rem_nonpos i 15 ltac:(lia) ltac:(lia)) as Hn.
    destruct (Z.ltb_spec (Z.rem i 15) 0); [reflexivity|lia].
Qed.

Lemma color_of_palette_witness :
  color_of 22 = Some "#48DBFB" /\ color_of 7 = Some "#48DBFB"
  /\ color_of (-4) = None.
Proof.
  destruct (color_of_palette 7) as (Hpos & _ & _).
  destruct (Hpos ltac:(lia)) as (c & Hc & _ & Hwrap).
  assert (c = "#48DBFB") as -> by (vm_compute in Hc; congruence).
  split; [exact Hwrap|]. split; [exact Hc|].
  destruct (color_of_palette (-4)) as (_ & _ & Hneg).
  apply Hneg; [lia | vm_compute; discriminate].
Defined.

(** X17.  The overlay and the dashboard list pick colours from palettes of
    different length (15 and 10 entries, the first ten in common): for a
    non-negative id the two colours are the same exactly when
    [id mod 30 < 10]. *)
Theorem overlay_dashboard_colours (i : Z) :
  0 <= i ->
  (Dashboard.color i = color_of i <-> i mod 30 < 10).
Proof.
  intros Hi. unfold Dashboard.color, color_of.
  change (Z.of_nat (length Dashboard.COLORS)) with 10.
  change (Z.of_nat (length COLORS)) with 15.
  rewrite !Z.rem_mod_nonneg by lia.
  pose proof (Z.mod_pos_bound i 30 ltac:(lia)) as Hb.
  assert (i mod 10 = (i mod 30) mod 10) as ->.
  { rewrite (Z.div_mod i 30) at 1 by lia.
    replace (30 * (i / 30) + i mod 30) with (i mod 30 + (3 * (i / 30)) * 10)
      by lia.
    apply Z.mod_add. lia. }
  assert (i mod 15 = (i mod 30) mod 15) as ->.
  { rewrite (Z.div_mod i 30) at 1 by lia.
    replace (30 * (i / 30) + i mod 30) with (i mod 30 + (2 * (i / 30)) * 15)
      by lia.
    apply Z.mod_add. lia. }
  generalize dependent (i mod 30). intros r Hr.
  assert (r = 0 \/ r = 1 \/ r = 2 \/ r = 3 \/ r = 4 \/ r = 5 \/ r = 6 \/ r = 7
          \/ r = 8 \/ r = 9 \/ r = 10 \/ r = 11 \/ r = 12 \/ r = 13 \/ r = 14
          \/ r = 15 \/ r = 16 \/ r = 17 \/ r = 18 \/ r = 19 \/ r = 20
          \/ r = 21 \/ r = 22 \/ r = 23 \/ r = 24 \/ r = 25 \/ r = 26
          \/ r = 27 \/ r = 28 \/ r = 29) as Hcases by lia.
  repeat (destruct Hcases as [->|Hcases]); try subst r;
    vm_compute; split; intros H; try reflexivity; try discriminate;
    try congruence.
Qed.

Lemma overlay_dashboard_colours_witness :
  Dashboard.color 37 = color_of 37 /\ Dashboard.color 12 <> color_of 12.
Proof.
  split.
  - apply (overlay_dashboard_colours 37); [lia | reflexivity].
  - intros H. apply (overlay_dashboard_colours 12) in H; [|lia].
    vm_compute in H. discriminate.
Defined.

(** *** Paint state *)

Lemma boxes_solid_app l1 : forall st l2,
  boxes_solid st (l1 ++ l2)
  <-> boxes_solid st l1 /\ boxes_solid (fold_left paint_step l1 st) l2.
Proof.
  induction l1 as [|op l1 IH]; intros st l2; simpl; [tauto|].
  rewrite IH. tauto.
Qed.

Lemma lineTo_neutral (f : Point -> CanvasOp) l st :
  (forall p, exists x y, f p = lineTo x y) ->
  boxes_solid st (map f l) /\ fold_left paint_step (map f l) st = st.
Proof.
  intros Hf. induction l as [|p l IH]; simpl; [auto|].
  destruct (Hf p) as (x & y & ->). simpl.
  destruct IH as [IH1 IH2]. repeat split; [discriminate|assumption..].
Qed.

Lemma draw_object_paint ctx sx sy obj :
  boxes_solid default_paint (draw_object ctx sx sy obj)
  /\ fold_left paint_step (draw_object ctx sx sy obj) default_paint
     = default_paint.
Proof.
  unfold draw_object, draw_box, draw_corners, draw_label, scaled_bbox.
  destruct (bbox obj) as [[[x1 y1] x2] y2].
  assert (boxes_solid default_paint (draw_trajectory sx sy obj)
          /\ fold_left paint_step (draw_trajectory sx sy obj) default_paint
             = default_paint) as [Ht1 Ht2].
  { unfold draw_trajectory.
    destruct (trajectory obj) as [[|p0 [|p1 rest]]|];
      try (split; [exact I | reflexivity]).
    destruct (lineTo_neutral
                (fun p => lineTo (px p * sx)%Qc (py p * sy)%Qc) (p1 :: rest)
                (Q2Qc (6 # 10), [num_of_Z 5; num_of_Z 5])) as [H1 H2];
      [intros p; eauto|].
    rewrite !boxes_solid_app, !fold_left_app.
    change (fold_left paint_step
              [set_strokeStyle (color_of (id obj)); set_lineWidth (num_of_Z 2);
               setLineDash [num_of_Z 5; num_of_Z 5];
               set_globalAlpha (Q2Qc (6 # 10)); beginPath;
               moveTo (px p0 * sx)%Qc (py p0 * sy)%Qc] default_paint)
      with (Q2Qc (6 # 10), [num_of_Z 5; num_of_Z 5]).
    rewrite H2. cbn [fold_left paint_step fst snd].
    repeat split;
      first [discriminate | assumption | reflexivity | exact I
             | exact (proj2 H1)]. }
  rewrite !boxes_solid_app, !fold_left_app. simpl.
  repeat split; try discriminate; try reflexivity; assumption.
Qed.

Lemma flat_map_draw_object_paint ctx sx sy objs :
  boxes_solid default_paint (flat_map (draw_object ctx sx sy) objs)
  /\ fold_left paint_step (flat_map (draw_object ctx sx sy) objs)
       default_paint = default_paint.
Proof.
  induction objs as [|obj objs [IH1 IH2]]; simpl; [auto|].
  destruct (draw_object_paint ctx sx sy obj) as [H1 H2].
  rewrite boxes_solid_app, fold_left_app, H2. auto.
Qed.

(** X15.  Trajectories never leak their paint settings.  Started on a
    context in its default state (opaque, solid lines), a redraw makes every
    [strokeRect], [fillRect] and [fillText] call in that default state --
    only the trajectory polylines are dashed and translucent -- and it
    hands the context back in the default state, so the next redraw starts
    the same way. *)
Theorem draw_keeps_boxes_solid (canvasRef : option Canvas)
    (videoRef : option Video) (objs : list TrackedObject) (canvas' : Canvas)
    (ops : list CanvasOp) :
  draw canvasRef videoRef objs = Some (canvas', ops) ->
  boxes_solid default_paint ops
  /\ fold_left paint_step ops default_paint = default_paint.
Proof.
  unfold draw. destruct canvasRef as [canvas|]; [|discriminate].
  destruct videoRef as [video|]; [|discriminate].
  destruct (getContext canvas) as [ctx|]; [|discriminate].
  intros [= <- <-]. cbn [boxes_solid fold_left paint_step paints_box_or_label].
  split; [split; [discriminate|]|]; apply flat_map_draw_object_paint.
Qed.

Lemma draw_keeps_boxes_solid_witness :
  let walker := mkTrackedObject 3
                  (num_of_Z 10, num_of_Z 10, num_of_Z 60, num_of_Z 90)
                  "person" (Q2Qc (1 # 2))
                  (Some [mkPoint (num_of_Z 1) (num_of_Z 2);
                         mkPoint (num_of_Z 3) (num_of_Z 4);
                         mkPoint (num_of_Z 5) (num_of_Z 6)]) in
  exists canvas' ops,
    draw (Some (mkCanvas 640 480 (Some sample_context)))
         (Some (mkVideo 640 480)) [walker; sample_object]
    = Some (canvas', ops)
    /\ In (set_globalAlpha (Q2Qc (6 # 10))) ops
    /\ boxes_solid default_paint ops.
Proof.
  intros walker. eexists _, _. split; [reflexivity|].
  split; [simpl; tauto|].
  refine (proj1 (draw_keeps_boxes_solid
                   (Some (mkCanvas 640 480 (Some sample_context)))
                   (Some (mkVideo 640 480)) [walker; sample_object] _ _ _)).
  reflexivity.
Defined.

(** *** Labels *)

Lemma Math_round_bounds (x : num) (lo hi : Z) :
  (num_of_Z lo <= x)%Qc -> (x <= num_of_Z hi)%Qc ->
  lo <= Math_round x <= hi.
Proof.
  unfold Math_round, num_of_Z, Qcle. cbn [this Q2Qc].
  rewrite !Qred_correct. intros Hlo Hhi. split.
  - rewrite <- (Qfloor_Z lo). apply Qfloor_resp_le.
    apply Qle_trans with (this x); [assumption|].
    rewrite <- (Qplus_0_r (this x)) at 1.
    apply Qplus_le_compat; [apply Qle_refl | discriminate].
  - assert (Qfloor (this x + (1 # 2)) <= Qfloor (inject_Z hi + (1 # 2))) as H.
    { apply Qfloor_resp_le, Qplus_le_compat; [assumption | apply Qle_refl]. }
    assert (Qfloor (inject_Z hi + (1 # 2)) = hi) as E; [|lia].
    assert (inject_Z hi + (1 # 2) == (2 * hi + 1) # 2)%Q as ->.
    { unfold Qeq, Qplus, inject_Z. simpl. lia. }
    unfold Qfloor. symmetry. apply Z.div_unique with (r := 1); lia.
Qed.

(** Rounding to binary64 keeps a number within integer bounds. *)

Lemma pow2_nonneg_exp (e : Z) : 0 <= e -> pow2 e = inject_Z (2 ^ e).
Proof.
  intros H. unfold pow2. destruct (Z.ltb_spec e 0); [lia | reflexivity].
Qed.

Lemma pow2_nonpos_exp (e : Z) :
  e <= 0 -> (pow2 e == 1 # Z.to_pos (2 ^ (- e)))%Q.
Proof.
  intros H. unfold pow2. destruct (Z.ltb_spec e 0); [reflexivity|].
  assert (e = 0) as -> by lia. reflexivity.
Qed.

Lemma round_half_even_bounds (q : Q) (hi : Z) :
  (0 <= q)%Q -> (q <= inject_Z hi)%Q -> 0 <= round_half_even q <= hi.
Proof.
  intros H0 Hhi.
  assert (0 <= Qfloor q) as Hf0.
  { change 0 with (Qfloor 0). apply Qfloor_resp_le. exact H0. }
  assert (Qfloor q <= hi) as Hfhi.
  { rewrite <- (Qfloor_Z hi). apply Qfloor_resp_le. exact Hhi. }
  unfold round_half_even.
  assert ((1 # 2 <= q - inject_Z (Qfloor q))%Q -> Qfloor q + 1 <= hi) as Hup.
  { intros Hhalf. destruct (Z.eq_dec (Qfloor q) hi) as [E|]; [|lia].
    exfalso. rewrite E in Hhalf.
    assert (q - inject_Z hi <= 0)%Q by lra. lra. }
  destruct (Qcompare_spec (q - inject_Z (Qfloor q)) (1 # 2)) as [E|L|G].
  - destruct (Z.even (Qfloor q)); [lia|].
    split; [lia|]. apply Hup. rewrite E. apply Qle_refl.
  - lia.
  - split; [lia|]. apply Hup. apply Qlt_le_weak. exact G.
Qed.

Lemma binade_le (q : Q) : (0 < q)%Q -> (pow2 (binade q) <= q)%Q.
Proof.
  intros Hq. unfold binade.
  rewrite (Qabs_pos q) by (apply Qlt_le_weak; exact Hq).
  destruct (Qle_bool _ q) eqn:E; [apply Qle_bool_iff; exact E|].
  destruct q as [n d]. unfold Qlt in Hq. simpl in Hq.
  cbn [Qnum Qden]. rewrite Z.abs_eq by lia.
  assert (0 < n) as Hn by lia.
  pose proof (Z.log2_spec n Hn) as [Ha _].
  pose proof (Z.log2_spec (Zpos d) eq_refl) as [_ Hb].
  pose proof (Z.log2_nonneg n) as Ha0.
  pose proof (Z.log2_nonneg (Zpos d)) as Hb0.
  set (a := Z.log2 n) in *. set (b := Z.log2 (Zpos d)) in *.
  unfold pow2. destruct (Z.ltb_spec (a - b - 1) 0) as [Hneg|Hpos].
  - unfold Qle. cbn [Qnum Qden].
    assert (0 < 2 ^ (- (a - b - 1))) as Hp by (apply Z.pow_pos_nonneg; lia).
    rewrite Z2Pos.id by exact Hp.
    assert (2 ^ a * 2 ^ (- (a - b - 1)) = 2 ^ Z.succ b) as Hsplit.
    { rewrite <- Z.pow_add_r by lia. f_equal. lia. }
    assert (0 < 2 ^ a) by (apply Z.pow_pos_nonneg; lia).
    nia.
  - unfold Qle, inject_Z. cbn [Qnum Qden].
    assert (2 ^ (a - b - 1) * 2 ^ Z.succ b = 2 ^ a) as Hsplit.
    { rewrite <- Z.pow_add_r by lia. f_equal. lia. }
    assert (0 < 2 ^ (a - b - 1)) by (apply Z.pow_pos_nonneg; lia).
    nia.
Qed.

(** Rounding keeps a number between 0 and an integer below [2^53] there,
    and never overflows on it. *)
Lemma double_bounded (q : Q) (hi : Z) :
  (0 <= q)%Q -> (q <= inject_Z hi)%Q -> hi < 2 ^ 53 ->
  exists r, double q = Finite r
            /\ (num_of_Z 0 <= r)%Qc /\ (r <= num_of_Z hi)%Qc.
Proof.
  intros H0 Hhi Hsmall. unfold double.
  destruct (Qeq_bool q 0) eqn:Ez.
  { exists (num_of_Z 0). split; [reflexivity|]. split; [apply Qcle_refl|].
    apply Qeq_bool_iff in Ez. unfold Qcle, num_of_Z. cbn [this Q2Qc].
    rewrite !Qred_correct. rewrite <- Ez. exact Hhi. }
  assert (0 < q)%Q as Hq.
  { apply Qle_lteq in H0 as [H|H]; [exact H|].
    rewrite <- H in Ez. discriminate Ez. }
  assert (binade q <= 52) as He.
  { destruct (Z_le_gt_dec (binade q) 52) as [|Hbig]; [assumption|exfalso].
    pose proof (binade_le q Hq) as Hle.
    rewrite pow2_nonneg_exp in Hle by lia.
    assert (inject_Z (2 ^ binade q) <= inject_Z hi)%Q as Hz
      by (eapply Qle_trans; eassumption).
    rewrite <- Zle_Qle in Hz.
    assert (2 ^ 53 <= 2 ^ binade q) by (apply Z.pow_le_mono_r; lia).
    lia. }
  set (u := Z.max (binade q - 52) (-1074)).
  assert (u <= 0) as Hu by (subst u; lia).
  set (k := 2 ^ (- u)).
  assert (0 < k) as Hk by (subst k; apply Z.pow_pos_nonneg; lia).
  assert (pow2 u == 1 # Z.to_pos k)%Q as Hulp by (apply pow2_nonpos_exp; exact Hu).
  assert (q / pow2 u == q * inject_Z k)%Q as Hscaled.
  { rewrite Hulp. unfold Qdiv. apply Qmult_comp; [reflexivity|].
    unfold Qinv, Qeq, inject_Z. simpl. rewrite Z2Pos.id by exact Hk. lia. }
  set (m := round_half_even (q / pow2 u)).
  assert (0 <= m <= hi * k) as Hm.
  { apply round_half_even_bounds.
    - rewrite Hscaled. apply Qmult_le_0_compat; [exact H0|].
      rewrite <- (Zle_Qle 0). lia.
    - rewrite Hscaled, inject_Z_mult. apply Qmult_le_compat_r; [exact Hhi|].
      rewrite <- (Zle_Qle 0). lia. }
  assert (inject_Z m * pow2 u == m # Z.to_pos k)%Q as Hr.
  { rewrite Hulp. unfold Qeq, Qmult, inject_Z. simpl. lia. }
  assert (0 <= m # Z.to_pos k)%Q as Hr0 by (unfold Qle; simpl; lia).
  assert (m # Z.to_pos k <= inject_Z hi)%Q as Hrhi.
  { unfold Qle, inject_Z. simpl. rewrite Z2Pos.id by exact Hk. lia. }
  destruct (Qle_bool (pow2 1024) _) eqn:Eover.
  { exfalso. apply Qle_bool_iff in Eover.
    rewrite Hr, Qabs_pos in Eover by exact Hr0.
    assert (pow2 1024 <= inject_Z hi)%Q as Hbig
      by (eapply Qle_trans; eassumption).
    rewrite pow2_nonneg_exp, <- Zle_Qle in Hbig by lia.
    assert (2 ^ 53 <= 2 ^ 1024) by (apply Z.pow_le_mono_r; lia).
    lia. }
  eexists. split; [reflexivity|].
  unfold Qcle, num_of_Z. cbn [this Q2Qc]. rewrite !Qred_correct.
  fold u. fold m. rewrite Hr. split; assumption.
Qed.

(** X18.  For a confidence between 0 and 1 the label ends in a whole
    percentage between 0 and 100: the text is ["ID:<id> <class> <k>%"] with
    [k] the product of the confidence and 100 as binary64 arithmetic yields
    it, rounded to the nearest integer.  It is the rounded product that
    counts: a confidence of 0.285 prints 28%, because [0.285 * 100] is
    28.499999999999996 in binary64. *)
Theorem label_percentage (obj : TrackedObject) :
  (num_of_Z 0 <= confidence obj)%Qc ->
  (confidence obj <= num_of_Z 1)%Qc ->
  exists x k,
    times (double (this (confidence obj))) (Finite (num_of_Z 100)) = Finite x
    /\ k = Math_round x
    /\ 0 <= k <= 100
    /\ fullLabel obj
       = ("ID:" +:+ Number_toString (id obj) +:+ " " +:+ class obj)
         +:+ " " +:+ pretty k +:+ "%".
Proof.
  intros H0 H1.
  destruct (double_bounded (this (confidence obj)) 1) as (c & Hc & Hc0 & Hc1).
  { exact H0. }
  { exact H1. }
  { reflexivity. }
  destruct (double_bounded (this c * this (num_of_Z 100)) 100)
    as (x & Hx & Hx0 & Hx1).
  { apply Qmult_le_0_compat; [exact Hc0 | discriminate]. }
  { unfold Qcle in Hc1. change (this (num_of_Z 1)) with 1%Q in Hc1.
    change (this (num_of_Z 100)) with (100 # 1)%Q.
    change (inject_Z 100) with (100 # 1)%Q. lra. }
  { reflexivity. }
  exists x, (Math_round x).
  assert (times (double (this (confidence obj))) (Finite (num_of_Z 100))
          = Finite x) as Htimes.
  { rewrite Hc. unfold times. exact Hx. }
  split; [exact Htimes|]. split; [reflexivity|].
  split; [apply Math_round_bounds; assumption|].
  unfold fullLabel. rewrite Htimes. unfold toFixed0.
  destruct (Qc_lt_dec x (num_of_Z 0)) as [Hneg|_].
  { exfalso. apply (Qclt_not_le _ _ Hneg). exact Hx0. }
  destruct (Qle_bool (inject_Z (10 ^ 21)) (this x)) eqn:Ebig; [|reflexivity].
  exfalso. apply Qle_bool_iff in Ebig. unfold Qcle in Hx1.
  change (this (num_of_Z 100)) with (inject_Z 100) in Hx1.
  assert (inject_Z (10 ^ 21) <= inject_Z 100)%Q as Habs
    by (eapply Qle_trans; eassumption).
  rewrite <- Zle_Qle in Habs. lia.
Qed.

Lemma label_percentage_witness :
  fullLabel sample_object = "ID:7 car 87%"
  /\ fullLabel (with_confidence (Q2Qc (285 # 1000)) sample_object)
     = "ID:7 car 28%"
  /\ fullLabel (with_confidence (Q2Qc (815 # 1000)) sample_object)
     = "ID:7 car 82%".
Proof.
  split; [|split].
  - destruct (label_percentage sample_object) as (x & k & Hx & Hk & _ & ->).
    + vm_compute. discriminate.
    + vm_compute. discriminate.
    + vm_compute in Hx. injection Hx as <-. rewrite Hk.
      vm_compute. reflexivity.
  - destruct (label_percentage
                (with_confidence (Q2Qc (285 # 1000)) sample_object))
      as (x & k & Hx & Hk & _ & ->).
    + vm_compute. discriminate.
    + vm_compute. discriminate.
    + vm_compute in Hx. injection Hx as <-. rewrite Hk.
      vm_compute. reflexivity.
  - destruct (label_percentage
                (with_confidence (Q2Qc (815 # 1000)) sample_object))
      as (x & k & Hx & Hk & _ & ->).
    + vm_compute. discriminate.
    + vm_compute. discriminate.
    + vm_compute in Hx. injection Hx as <-. rewrite Hk.
      vm_compute. reflexivity.
Defined.

(** * The page: frame sampler and live analytics *)

(** X19.  A sampler tick sends a frame only from a playing video onto an
    open session.  While the video is paused or has ended the tick changes
    nothing, not even the capture canvas; when the session is not open the
    hook state is unchanged; and on a playing video with an open session
    the capture canvas takes the video's native size and exactly one frame
    goes out, carrying the JPEG of the current picture at that size. *)
Theorem sampler_tick (Picture : Type) (toDataURL : N -> N -> Picture -> string)
    (video : VideoElement Picture) (canvas : Canvas) (now : Z) (s : State) :
  let result :=
    captureAndSendFrame Picture toDataURL (Some video) (Some canvas) now s in
  (paused Picture video = true \/ ended Picture video = true ->
   result = (Some canvas, s))
  /\ (sessionState s <> Open -> snd result = s)
  /\ (forall ctx w ws,
        paused Picture video = false -> ended Picture video = false ->
        getContext canvas = Some ctx ->
        wsRef s = Some w -> sockets s !! w = Some ws ->
        readyState ws = OPEN ->
        fst result
        = Some (mkCanvas (videoWidth (native Picture video))
                  (videoHeight (native Picture video)) (Some ctx))
        /\ sockets (snd result) !! w
           = Some (mkWebSocket (url ws) OPEN
                     (sent ws
                      ++ [Frame (toDataURL (videoWidth (native Picture video))
                                   (videoHeight (native Picture video))
                                   (picture Picture video))
                            now (frameCountRef s)]))
        /\ transmissions (snd result) = S (transmissions s)).
Proof.
  unfold captureAndSendFrame. cbv zeta. split; [|split].
  - intros [-> | ->]; [reflexivity|].
    rewrite orb_true_r. reflexivity.
  - intros Hs. destruct (paused Picture video || ended Picture video);
      [reflexivity|].
    cbn [getContext]. destruct (getContext canvas); [|reflexivity].
    cbn [snd]. unfold sendFrame. unfold sessionState in Hs.
    destruct (wsRef s) as [w|]; [|reflexivity].
    destruct (ready w s) as [[]|]; try reflexivity. congruence.
  - intros ctx w ws -> -> Hctx Href Hw Ho. cbn [orb getContext].
    rewrite Hctx. cbn [fst snd width height].
    split; [reflexivity|].
    rewrite (sendFrame_open _ now s w ws Href Hw Ho).
    cbn [sockets set_sockets].
    split; [apply list_lookup_insert_eq; eapply lookup_lt_Some; eassumption|].
    rewrite <- (ws_send_open w _ s ws Hw Ho).
    apply ws_send_transmissions_open. apply ready_Some. eauto.
Qed.

Lemma sampler_tick_witness :
  let s := run accept_all sample_config [StartTracking 0; WsOpen 0] (mount 0) in
  let encode := fun (w h : N) (p : string) => "data:image/jpeg;base64," +:+ p in
  let video := mkVideoElement string (mkVideo 640 480) false false "AAAA" in
  let canvas := mkCanvas 300 150 (Some sample_context) in
  let result := captureAndSendFrame string encode (Some video) (Some canvas)
                  100 s in
  (width <$> fst result) = Some 640%N
  /\ transmissions (snd result) = 1%nat.
Proof.
  intros s encode video canvas result. subst result.
  destruct (sampler_tick string encode video canvas 100 s) as (_ & _ & H).
  destruct (H sample_context 0%nat
              (mkWebSocket "ws://localhost:8000/ws" OPEN [])
              eq_refl eq_refl eq_refl eq_refl eq_refl eq_refl)
    as (Hc & _ & Ht).
  rewrite Hc, Ht. split; reflexivity.
Defined.

(** *** Live analytics *)

Lemma length_slice_last {A} n (l : list A) :
  length (slice_last n l) = Nat.min (length l) n.
Proof. unfold slice_last. rewrite length_drop. lia. Qed.

Lemma liveAnalytics_history_length tab objs ts a :
  (length (confidenceHistory a) <= 51)%nat ->
  (length (confidenceHistory (liveAnalytics tab objs ts a)) <= 51)%nat.
Proof.
  intros H. unfold liveAnalytics. destruct tab; [exact H|].
  destruct (0 <? length objs)%nat; [|exact H].
  cbn [confidenceHistory]. rewrite length_app, length_slice_last. simpl. lia.
Qed.

(** X20.  The confidence chart never holds more than 51 samples.  Each
    render on the live tab with at least one tracked object keeps the last
    50 samples and appends one for the current average, stamped with the
    current time; a render on the upload tab or with no objects leaves the
    analytics untouched; and the class counts are never changed. *)
Theorem confidence_history_bounded
    (renders : list (Tab * list TrackedObject * string))
    (tab : Tab) (objs : list TrackedObject) (ts : string)
    (a : AnalyticsData) :
  (length (confidenceHistory (liveAnalytics_all renders initial_analytics))
   <= 51)%nat
  /\ (tab = UploadTab \/ objs = [] -> liveAnalytics tab objs ts a = a)
  /\ (tab = LiveTab -> objs <> [] ->
      confidenceHistory (liveAnalytics tab objs ts a)
      = slice_last 50 (confidenceHistory a)
        ++ [mkConfidenceSample ts (mean_confidence objs)]
      /\ length (confidenceHistory (liveAnalytics tab objs ts a))
         = S (Nat.min (length (confidenceHistory a)) 50)
      /\ avgConfidence (liveAnalytics tab objs ts a) = mean_confidence objs
      /\ totalObjects (liveAnalytics tab objs ts a)
         = Z.of_nat (size (id_set objs)))
  /\ objectClasses (liveAnalytics tab objs ts a) = objectClasses a.
Proof.
  split; [|split; [|split]].
  - assert (forall a0, (length (confidenceHistory a0) <= 51)%nat ->
              (length (confidenceHistory (liveAnalytics_all renders a0))
               <= 51)%nat) as H.
    { induction renders as [|r renders IH]; intros a0 Ha; [exact Ha|].
      apply IH. apply liveAnalytics_history_length, Ha. }
    apply H. simpl. lia.
  - intros [-> | ->]; [reflexivity|]. destruct tab; reflexivity.
  - intros -> Hne. destruct objs as [|o objs]; [contradiction|].
    cbn [liveAnalytics length Nat.ltb Nat.leb confidenceHistory avgConfidence
         totalObjects].
    split; [reflexivity|]. split; [|split; reflexivity].
    rewrite length_app, length_slice_last. simpl. lia.
  - unfold liveAnalytics. destruct tab; [reflexivity|].
    destruct (0 <? length objs)%nat; reflexivity.
Qed.

Lemma confidence_history_bounded_witness :
  let renders := replicate 60 (LiveTab, [sample_object], "2026-01-01T00:00:00.000Z") in
  length (confidenceHistory (liveAnalytics_all renders initial_analytics))
  = 51%nat.
Proof.
  intros renders.
  destruct (confidence_history_bounded renders LiveTab [sample_object] ""
              initial_analytics) as (Hle & _).
  apply Nat.le_antisymm; [exact Hle|].
  vm_compute. lia.
Defined.

(** *** Averages and distinct ids *)

Lemma num_of_Z_succ (n : nat) :
  num_of_Z (Z.of_nat (S n)) = (num_of_Z (Z.of_nat n) + num_of_Z 1)%Qc.
Proof.
  unfold num_of_Z. apply Qc_is_canon. cbn [this Q2Qc Qcplus].
  rewrite !Qred_correct. rewrite Nat2Z.inj_succ.
  unfold Qeq, Qplus, inject_Z. simpl. lia.
Qed.

Lemma num_of_Z_pos (z : Z) : 0 < z -> (num_of_Z 0 < num_of_Z z)%Qc.
Proof.
  intros Hz. unfold Qclt, num_of_Z. cbn [this Q2Qc].
  rewrite !Qred_correct. unfold Qlt, inject_Z. simpl. lia.
Qed.

Lemma sum_confidence_bounds (objs : list TrackedObject) :
  forall acc,
    Forall (fun obj =>
              (num_of_Z 0 <= confidence obj)%Qc
              /\ (confidence obj <= num_of_Z 1)%Qc) objs ->
    (acc <= fold_left (fun a obj => (a + confidence obj)%Qc) objs acc)%Qc
    /\ (fold_left (fun a obj => (a + confidence obj)%Qc) objs acc
        <= acc + num_of_Z (Z.of_nat (length objs)))%Qc.
Proof.
  induction objs as [|o objs IH]; intros acc Hall.
  - simpl. change (num_of_Z (Z.of_nat 0)) with 0%Qc.
    rewrite Qcplus_0_r. split; apply Qcle_refl.
  - inversion Hall as [|? ? [Hlo Hhi] Hrest]; subst.
    destruct (IH (acc + confidence o)%Qc Hrest) as [IHlo IHhi].
    cbn [fold_left length]. rewrite num_of_Z_succ. split.
    + eapply Qcle_trans; [|exact IHlo].
      rewrite <- (Qcplus_0_r acc) at 1.
      apply Qcplus_le_compat; [apply Qcle_refl | exact Hlo].
    + eapply Qcle_trans; [exact IHhi|].
      replace (acc + (num_of_Z (Z.of_nat (length objs)) + num_of_Z 1))%Qc
        with ((acc + num_of_Z 1) + num_of_Z (Z.of_nat (length objs)))%Qc
        by ring.
      apply Qcplus_le_compat; [|apply Qcle_refl].
      apply Qcplus_le_compat; [apply Qcle_refl | assumption].
Qed.

Lemma mean_confidence_bounds (objs : list TrackedObject) :
  objs <> [] ->
  Forall (fun obj =>
            (num_of_Z 0 <= confidence obj)%Qc
            /\ (confidence obj <= num_of_Z 1)%Qc) objs ->
  (num_of_Z 0 <= mean_confidence objs)%Qc
  /\ (mean_confidence objs <= num_of_Z 1)%Qc.
Proof.
  intros Hne Hall.
  destruct (sum_confidence_bounds objs (num_of_Z 0) Hall) as [Hlo Hhi].
  change (num_of_Z 0) with 0%Qc in *. change (num_of_Z 1) with 1%Qc.
  rewrite Qcplus_0_l in Hhi.
  set (n := num_of_Z (Z.of_nat (length objs))) in *.
  assert (0 < n)%Qc as Hn.
  { apply (num_of_Z_pos (Z.of_nat (length objs))).
    destruct objs; [contradiction | simpl; lia]. }
  assert (n <> 0%Qc) as Hn0.
  { intros E. rewrite E in Hn. exact (Qclt_not_eq _ _ Hn eq_refl). }
  unfold mean_confidence, sum_confidence. fold n.
  change (num_of_Z 0) with 0%Qc.
  set (total := fold_left _ objs 0%Qc) in *.
  split; apply (Qcmult_lt_0_le_reg_r _ _ n Hn).
  - replace (total / n * n)%Qc with total by (field; assumption).
    rewrite Qcmult_0_l. exact Hlo.
  - replace (total / n * n)%Qc with total by (field; assumption).
    rewrite Qcmult_1_l. exact Hhi.
Qed.

(** X21.  The dashboard's average confidence is 0 for an empty list -- no
    division by zero -- and for any other list the figure the page computes
    for its live analytics; with every confidence in [0, 1] the average is
    in [0, 1] too. *)
Theorem average_confidence_in_range (objs : list TrackedObject) :
  Dashboard.avgConfidence [] = num_of_Z 0
  /\ (objs <> [] -> Dashboard.avgConfidence objs = mean_confidence objs)
  /\ (Forall (fun obj =>
                (num_of_Z 0 <= confidence obj)%Qc
                /\ (confidence obj <= num_of_Z 1)%Qc) objs ->
      (num_of_Z 0 <= Dashboard.avgConfidence objs)%Qc
      /\ (Dashboard.avgConfidence objs <= num_of_Z 1)%Qc).
Proof.
  assert (objs <> [] -> Dashboard.avgConfidence objs = mean_confidence objs)
    as Hmean.
  { intros Hne. unfold Dashboard.avgConfidence.
    destruct objs; [contradiction | reflexivity]. }
  split; [reflexivity|]. split; [exact Hmean|].
  intros Hall. destruct objs as [|o objs].
  - split; discriminate.
  - rewrite Hmean by discriminate.
    apply mean_confidence_bounds; [discriminate | assumption].
Qed.

Lemma average_confidence_in_range_witness :
  let objs := [sample_object; with_confidence (Q2Qc (1 # 2)) sample_object] in
  (num_of_Z 0 <= Dashboard.avgConfidence objs)%Qc
  /\ (Dashboard.avgConfidence objs <= num_of_Z 1)%Qc.
Proof.
  intros objs.
  destruct (average_confidence_in_range objs) as (_ & _ & H).
  apply H. repeat constructor; discriminate.
Defined.

(** X22.  The number of distinct ids -- the dashboard's "unique tracked"
    figure and the page's [totalObjects] -- never exceeds the number of
    tracked objects, is at least 1 when there is one, equals the number of
    objects exactly when no id is repeated, and is unaffected by the order
    of the list. *)
Theorem unique_ids_count (objs : list TrackedObject) :
  (Dashboard.uniqueObjects objs <= length objs)%nat
  /\ (objs <> [] -> (1 <= Dashboard.uniqueObjects objs)%nat)
  /\ (Dashboard.uniqueObjects objs = length objs <-> NoDup (id <$> objs))
  /\ (forall objs', objs ≡ₚ objs' ->
        Dashboard.uniqueObjects objs' = Dashboard.uniqueObjects objs).
Proof.
  unfold Dashboard.uniqueObjects, id_set.
  assert (forall l : list Z, (size (list_to_set l : gset Z) <= length l)%nat
            /\ (size (list_to_set l : gset Z) = length l <-> NoDup l)) as H.
  { induction l as [|x l [IHle IHeq]].
    - rewrite list_to_set_nil, size_empty. simpl.
      split; [lia|]. split; [constructor | reflexivity].
    - rewrite list_to_set_cons. cbn [length].
      destruct (decide (x ∈ (list_to_set l : gset Z))) as [Hin|Hnin].
      + assert ({[x]} ∪ list_to_set l = (list_to_set l : gset Z)) as ->
          by set_solver.
        split; [lia|]. split; [lia|].
        intros Hnd. apply NoDup_cons in Hnd as [Hx _].
        rewrite elem_of_list_to_set in Hin. contradiction.
      + rewrite size_union by set_solver. rewrite size_singleton.
        split; [lia|]. rewrite NoDup_cons.
        rewrite elem_of_list_to_set in Hnin. split.
        * intros E. split; [assumption|]. apply IHeq. lia.
        * intros [_ Hnd]. apply IHeq in Hnd. lia. }
  split; [|split; [|split]].
  - destruct (H (id <$> objs)) as [Hle _]. rewrite length_fmap in Hle. exact Hle.
  - intros Hne. destruct objs as [|o objs]; [contradiction|].
    rewrite fmap_cons, list_to_set_cons.
    assert (id o ∈ ({[id o]} ∪ list_to_set (id <$> objs) : gset Z)) as Hin
      by set_solver.
    destruct (decide (size ({[id o]} ∪ list_to_set (id <$> objs) : gset Z) = 0%nat))
      as [E|]; [|lia].
    apply size_empty_inv in E. set_solver.
  - destruct (H (id <$> objs)) as [_ Heq]. rewrite length_fmap in Heq.
    exact Heq.
  - intros objs' Hperm. f_equal. apply set_eq. intros x.
    rewrite !elem_of_list_to_set, Hperm. reflexivity.
Qed.

Lemma unique_ids_count_witness :
  let twin := with_confidence (num_of_Z 0) sample_object in
  Dashboard.uniqueObjects [sample_object; twin] = 1%nat
  /\ (1 <= Dashboard.uniqueObjects [sample_object; twin] <= 2)%nat.
Proof.
  intros twin.
  destruct (unique_ids_count [sample_object; twin]) as (Hle & Hge & _).
  split; [vm_compute; reflexivity|].
  split; [apply Hge; discriminate | exact Hle].
Defined.

(** * The upload route *)

(** X23.  The upload route always answers, with a status between 200 and
    599.  Without a file it answers 400 whatever the backend would do; it
    answers 200 only when a file was sent, the backend answered with a 2xx
    status and its body parsed, and the reply is then that parsed body; a
    backend failure with a status the route can relay is relayed with the
    backend's text as details. *)
Theorem POST_replies (File Json : Type) (parse : string -> option Json)
    (backend : ProcessVideo.FormValue File
               -> option ProcessVideo.BackendResponse)
    (request : option (option (ProcessVideo.FormValue File))) :
  let reply := ProcessVideo.POST File Json parse backend request in
  200 <= ProcessVideo.reply_status Json reply <= 599
  /\ (forall file, request = Some file -> ProcessVideo.missing File file = true ->
        reply = ProcessVideo.mkReply Json 400
                  (ProcessVideo.ErrorBody Json "No file provided" None))
  /\ (ProcessVideo.reply_status Json reply = 200 ->
      exists value response text data,
        request = Some (Some value)
        /\ ProcessVideo.missing File (Some value) = false
        /\ backend value = Some response
        /\ ProcessVideo.ok response = true
        /\ ProcessVideo.body response = Some text
        /\ parse text = Some data
        /\ ProcessVideo.reply_body Json reply = ProcessVideo.DataBody Json data)
  /\ (forall value st text,
        request = Some (Some value) ->
        ProcessVideo.missing File (Some value) = false ->
        backend value = Some (ProcessVideo.mkBackendResponse st (Some text)) ->
        300 <= st <= 599 -> st <> 304 ->
        reply = ProcessVideo.mkReply Json st
                  (ProcessVideo.ErrorBody Json "Backend processing failed"
                     (Some text))).
Proof.
  unfold ProcessVideo.POST. cbv zeta. split; [|split; [|split]].
  - destruct request as [file|]; [|simpl; lia].
    destruct (ProcessVideo.missing File file); [simpl; lia|].
    destruct file as [value|]; [|simpl; lia].
    destruct (backend value) as [response|]; [|simpl; lia].
    destruct (ProcessVideo.body response) as [text|]; [|simpl; lia].
    destruct (ProcessVideo.ok response).
    + destruct (parse text); simpl; lia.
    + unfold ProcessVideo.json.
      destruct ((200 <=? ProcessVideo.status response)
                && (ProcessVideo.status response <=? 599)
                && negb _) eqn:E; [|simpl; lia].
      simpl. lia.
  - intros file -> ->. reflexivity.
  - destruct request as [file|]; [|discriminate].
    destruct (ProcessVideo.missing File file) eqn:Hm; [discriminate|].
    destruct file as [value|]; [|discriminate].
    destruct (backend value) as [response|] eqn:Hb; [|discriminate].
    destruct (ProcessVideo.body response) as [text|] eqn:Ht; [|discriminate].
    destruct (ProcessVideo.ok response) eqn:Hok.
    + destruct (parse text) as [data|] eqn:Hp; [|discriminate].
      intros _. exists value, response, text, data. repeat split; assumption.
    + unfold ProcessVideo.json, ProcessVideo.ok in *.
      destruct ((200 <=? ProcessVideo.status response)
                && (ProcessVideo.status response <=? 599)
                && negb _) eqn:E; [|discriminate].
      simpl. intros E200. rewrite E200 in Hok. discriminate.
  - intros value st text -> Hm Hb Hst H304. rewrite Hm, Hb. simpl.
    unfold ProcessVideo.ok, ProcessVideo.json. simpl.
    assert ((200 <=? st) && (st <=? 299) = false) as -> by lia.
    assert ((200 <=? st) && (st <=? 599)
            && negb ((st =? 204) || (st =? 205) || (st =? 304)) = true) as ->
      by lia.
    reflexivity.
Qed.

Lemma POST_replies_witness :
  let backend := fun _ : ProcessVideo.FormValue string =>
                   Some (ProcessVideo.mkBackendResponse 422 (Some "bad video")) in
  ProcessVideo.POST string string Some backend
    (Some (Some (ProcessVideo.FileValue string "clip.mp4")))
  = ProcessVideo.mkReply string 422
      (ProcessVideo.ErrorBody string "Backend processing failed"
         (Some "bad video")).
Proof.
  intros backend.
  destruct (POST_replies string string Some backend
              (Some (Some (ProcessVideo.FileValue string "clip.mp4"))))
    as (_ & _ & _ & H).
  apply (H (ProcessVideo.FileValue string "clip.mp4") 422 "bad video");
    first [reflexivity | lia].
Defined.

(** * The camera component *)

Lemma stopTracking_fixed s :
  wsRef s = None -> trackedObjects s = [] -> fps s = 0 ->
  isProcessing s = false ->
  (forall k, pingIntervalRef s = Some k -> intervals s !! k = None) ->
  stopTracking s = s.
Proof.
  destruct s as [objs proc conn f err ws cnt last ping socks ivs next].
  simpl. intros -> -> -> -> Hk. unfold stopTracking. state_simpl.
  destruct ping as [k|]; state_simpl; [|reflexivity].
  rewrite delete_id by (apply Hk; reflexivity). reflexivity.
Qed.

Lemma stopTracking_resets s :
  fps (stopTracking s) = 0 /\ isProcessing (stopTracking s) = false
  /\ pingIntervalRef (stopTracking s) = pingIntervalRef s.
Proof.
  destruct s as [objs proc conn f err ws cnt last ping socks ivs next].
  unfold stopTracking, ws_close. state_simpl.
  destruct ping, ws as [w|]; state_simpl;
    try destruct (socks !! w); repeat split.
Qed.

Lemma stopTracking_twice s : stopTracking (stopTracking s) = stopTracking s.
Proof.
  destruct (stopTracking_facts s) as (Ho & _ & Hk).
  destruct (stopTracking_resets s) as (Hf & Hp & Hping).
  apply stopTracking_fixed; try assumption.
  - apply stopTracking_idle.
  - intros k. rewrite Hping. apply Hk.
Qed.

Lemma filter_all_live (n : nat) :
  filter (fun live : bool => live = true) (replicate n true) = replicate n true.
Proof.
  induction n as [|n IH]; [reflexivity|].
  cbn [replicate]. rewrite filter_cons, decide_True by reflexivity.
  f_equal. exact IH.
Qed.

(** X24.  Tracking starts only once the camera is granted.  If
    [getUserMedia] is refused the component shows the camera error and
    nothing else happens: no stream, no change of the streaming flag, and
    the tracker hook is not touched.  If it is granted, the new stream with
    all its tracks live becomes the current one, the flag is raised, the
    error stays cleared and [onStreamStart] has run once. *)
Theorem camera_start (onStreamStart : State -> State)
    (media : LiveStreamCapture.UserMedia) (c : LiveStreamCapture.Capture)
    (s : State) :
  let result :=
    LiveStreamCapture.startStream_resume onStreamStart media
      (LiveStreamCapture.startStream_begin c) s in
  (media = LiveStreamCapture.Denied ->
   snd result = s
   /\ LiveStreamCapture.streams (fst result) = LiveStreamCapture.streams c
   /\ LiveStreamCapture.streamRef (fst result) = LiveStreamCapture.streamRef c
   /\ LiveStreamCapture.isStreaming (fst result)
      = LiveStreamCapture.isStreaming c
   /\ LiveStreamCapture.error (fst result)
      = Some "Could not access camera. Please ensure you have granted camera permissions.")
  /\ (forall tracks, media = LiveStreamCapture.Granted tracks ->
        snd result = onStreamStart s
        /\ LiveStreamCapture.isStreaming (fst result) = true
        /\ LiveStreamCapture.error (fst result) = None
        /\ LiveStreamCapture.streamRef (fst result)
           = Some (length (LiveStreamCapture.streams c))
        /\ LiveStreamCapture.streams (fst result)
           !! length (LiveStreamCapture.streams c)
           = Some (replicate tracks true)
        /\ LiveStreamCapture.live_tracks (fst result)
           = (LiveStreamCapture.live_tracks c + tracks)%nat).
Proof.
  split.
  - intros ->. repeat split.
  - intros tracks ->. cbn [LiveStreamCapture.startStream_resume fst snd].
    split; [reflexivity|]. split; [reflexivity|]. split; [reflexivity|].
    split; [reflexivity|]. split.
    + cbn [LiveStreamCapture.streams LiveStreamCapture.startStream_begin].
      rewrite lookup_app_r by reflexivity.
      rewrite Nat.sub_diag. reflexivity.
    + unfold LiveStreamCapture.live_tracks.
      cbn [LiveStreamCapture.streams LiveStreamCapture.startStream_begin].
      rewrite concat_app, filter_app, length_app. f_equal.
      cbn [concat]. rewrite app_nil_r, filter_all_live. apply length_replicate.
Qed.

Lemma camera_start_witness :
  let c := LiveStreamCapture.initial true in
  let denied := LiveStreamCapture.startStream_resume
                  (startTracking accept_all sample_config 0)
                  LiveStreamCapture.Denied
                  (LiveStreamCapture.startStream_begin c) (mount 0) in
  let granted := LiveStreamCapture.startStream_resume
                   (startTracking accept_all sample_config 0)
                   (LiveStreamCapture.Granted 1)
                   (LiveStreamCapture.startStream_begin c) (mount 0) in
  snd denied = mount 0
  /\ sessionState (snd granted) = Connecting
  /\ LiveStreamCapture.live_tracks (fst granted) = 1%nat.
Proof.
  intros c denied granted. subst denied granted.
  destruct (camera_start (startTracking accept_all sample_config 0)
              LiveStreamCapture.Denied c (mount 0)) as (Hd & _).
  destruct (Hd eq_refl) as (Hs & _).
  destruct (camera_start (startTracking accept_all sample_config 0)
              (LiveStreamCapture.Granted 1) c (mount 0)) as (_ & Hg).
  destruct (Hg 1%nat eq_refl) as (Hs' & _ & _ & _ & _ & Hl).
  split; [exact Hs|]. split; [rewrite Hs'; reflexivity|].
  rewrite Hl. reflexivity.
Defined.

Lemma no_live_after_stop (l : list (list bool)) : forall current,
  (forall i tracks, l !! i = Some tracks -> current <> Some i ->
     Forall (fun live => live = false) tracks) ->
  filter (fun live => live = true)
    (concat match current with
            | Some stream =>
                match l !! stream with
                | Some tracks => <[stream := (fun _ => false) <$> tracks]> l
                | None => l
                end
            | None => l
            end) = [].
Proof.
  assert (forall tracks : list bool,
            Forall (fun live => live = false) tracks ->
            filter (fun live => live = true) tracks = []) as Hdead.
  { induction 1 as [|x tracks Hx _ IH]; [reflexivity|].
    rewrite filter_cons, decide_False by congruence. exact IH. }
  assert (forall tracks : list bool,
            Forall (fun live => live = false) ((fun _ => false) <$> tracks))
    as Hstopped.
  { induction tracks; constructor; auto. }
  induction l as [|x l IH]; intros current H.
  - destruct current; reflexivity.
  - destruct current as [[|stream]|].
    + cbn. rewrite filter_app, (Hdead _ (Hstopped x)). simpl.
      specialize (IH None). simpl in IH. apply IH.
      intros i tracks Hi _. apply (H (S i) tracks Hi). discriminate.
    + cbn [lookup list_lookup].
      specialize (IH (Some stream)). cbn in IH.
      assert (filter (fun live => live = true) x = []) as Hx.
      { apply Hdead. apply (H 0%nat x eq_refl). discriminate. }
      change ((x :: l) !! S stream) with (l !! stream).
      destruct (l !! stream) as [tracks|] eqn:E.
      * change (<[S stream := (fun _ => false) <$> tracks]> (x :: l))
          with (x :: <[stream := (fun _ => false) <$> tracks]> l).
        cbn [concat]. rewrite filter_app, Hx. simpl. apply IH.
        intros i tr Hi Hne. apply (H (S i) tr Hi). congruence.
      * cbn [concat]. rewrite filter_app, Hx. simpl. apply IH.
        intros i tr Hi Hne. apply (H (S i) tr Hi). congruence.
    + cbn [concat]. rewrite filter_app.
      rewrite (Hdead x) by (apply (H 0%nat x eq_refl); discriminate).
      simpl. specialize (IH None). simpl in IH. apply IH.
      intros i tracks Hi _. apply (H (S i) tracks Hi). discriminate.
Qed.

(** X25.  [stopStream] releases the camera and stops tracking.  It lowers
    the streaming flag, forgets the stream and runs [onStreamStop]; provided
    every other stream was already stopped, no camera track is live
    afterwards.  With [stopTracking] as [onStreamStop], as on the page,
    stopping twice leaves the tracker, the component's flag, error and
    stream reference and every camera track as stopping once does. *)
Theorem camera_stop (onStreamStop : State -> State)
    (c : LiveStreamCapture.Capture) (s : State) :
  let result := LiveStreamCapture.stopStream onStreamStop c s in
  snd result = onStreamStop s
  /\ LiveStreamCapture.isStreaming (fst result) = false
  /\ LiveStreamCapture.streamRef (fst result) = None
  /\ ((forall i tracks,
         LiveStreamCapture.streams c !! i = Some tracks ->
         LiveStreamCapture.streamRef c <> Some i ->
         Forall (fun live => live = false) tracks) ->
      LiveStreamCapture.live_tracks (fst result) = 0%nat)
  /\ (let once := LiveStreamCapture.stopStream stopTracking c s in
      let again := LiveStreamCapture.stopStream stopTracking
                     (fst once) (snd once) in
      snd again = snd once
      /\ LiveStreamCapture.isStreaming (fst again)
         = LiveStreamCapture.isStreaming (fst once)
      /\ LiveStreamCapture.error (fst again)
         = LiveStreamCapture.error (fst once)
      /\ LiveStreamCapture.streamRef (fst again)
         = LiveStreamCapture.streamRef (fst once)
      /\ LiveStreamCapture.streams (fst again)
         = LiveStreamCapture.streams (fst once)).
Proof.
  cbv zeta. unfold LiveStreamCapture.stopStream. cbn [fst snd].
  split; [reflexivity|]. split; [reflexivity|]. split; [reflexivity|].
  split.
  - intros H. unfold LiveStreamCapture.live_tracks.
    cbn [LiveStreamCapture.streams].
    rewrite (no_live_after_stop _ _ H). reflexivity.
  - cbn [LiveStreamCapture.streamRef LiveStreamCapture.error
         LiveStreamCapture.isStreaming LiveStreamCapture.streams].
    rewrite stopTracking_twice. repeat split.
Qed.

Lemma camera_stop_witness :
  let start := LiveStreamCapture.startStream_resume
                 (startTracking accept_all sample_config 0)
                 (LiveStreamCapture.Granted 2)
                 (LiveStreamCapture.startStream_begin
                    (LiveStreamCapture.initial true)) (mount 0) in
  let stop := LiveStreamCapture.stopStream stopTracking
                (fst start) (deliver_open 0 (snd start)) in
  LiveStreamCapture.live_tracks (fst start) = 2%nat
  /\ LiveStreamCapture.live_tracks (fst stop) = 0%nat
  /\ live_connections (snd stop) = 0%nat.
Proof.
  intros start stop. split; [reflexivity|].
  destruct (camera_stop stopTracking (fst start) (deliver_open 0 (snd start)))
    as (Hs & _ & _ & Hl & _).
  split.
  - apply Hl. intros i tracks Hi Hne.
    destruct i as [|i]; [contradiction Hne; reflexivity | discriminate Hi].
  - subst stop. rewrite Hs. reflexivity.
Defined.

(** * Across components *)

Lemma onmessage_trackedObjects data now s :
  trackedObjects (onmessage data now s)
  = default (trackedObjects s) (accepted data).
Proof.
  unfold onmessage, accepted. destruct data as [d|]; [|reflexivity].
  destruct (decide _); [reflexivity|].
  destruct (truthy _); [reflexivity|].
  destruct (msg_objects d); [|reflexivity].
  cbv zeta. destruct (1000 <=? _); reflexivity.
Qed.

Lemma handle_all_trackedObjects msgs : forall s,
  trackedObjects (handle_all msgs s) = latest (trackedObjects s) msgs.
Proof.
  induction msgs as [|m msgs IH]; intros s; [reflexivity|].
  unfold handle_all, latest in *. cbn [fold_left].
  rewrite IH, onmessage_trackedObjects. reflexivity.
Qed.

(** X26.  The overlay shows the latest results and only those.  After any
    sequence of inbound payloads the tracked objects are the [objects] of
    the last payload that was a results message -- never a merge with
    earlier ones -- and a redraw over a video of non-zero size strokes
    exactly those objects' boxes. *)
Theorem overlay_shows_latest (msgs : list (option Inbound * Z)) (s : State)
    (objs : list TrackedObject) (now : Z) (canvas : Canvas) (video : Video)
    (ctx : Context2D) :
  let s' := handle_all (msgs ++ [(results objs, now)]) s in
  trackedObjects (handle_all msgs s) = latest (trackedObjects s) msgs
  /\ trackedObjects s' = objs
  /\ (getContext canvas = Some ctx ->
      videoWidth video <> 0%N -> videoHeight video <> 0%N ->
      (stroked_boxes ∘ snd)
        <$> draw (Some canvas) (Some video) (trackedObjects s')
      = Some (map box_corners objs)).
Proof.
  intros s'.
  assert (trackedObjects s' = objs) as Hlast.
  { subst s'. rewrite handle_all_trackedObjects. unfold latest.
    rewrite fold_left_app. reflexivity. }
  split; [apply handle_all_trackedObjects|]. split; [exact Hlast|].
  intros Hctx Hw Hh. rewrite Hlast.
  destruct (stroked_boxes_of_draw canvas video ctx objs Hctx)
    as (canvas' & ops & -> & _ & _ & Hboxes).
  simpl. rewrite (Hboxes Hw Hh). reflexivity.
Qed.

Lemma overlay_shows_latest_witness :
  let other := mkTrackedObject 8
                 (num_of_Z 1, num_of_Z 2, num_of_Z 3, num_of_Z 4)
                 "dog" (Q2Qc (1 # 2)) None in
  let msgs := [(results [other; other], 10);
               (Some (mkInbound (Some "pong") None (Some [other])), 20)] in
  trackedObjects
    (handle_all (msgs ++ [(results [sample_object], 30)]) (mount 0))
  = [sample_object].
Proof.
  intros other msgs.
  exact (proj1 (proj2 (overlay_shows_latest msgs (mount 0) [sample_object] 30
                         (mkCanvas 1 1 None) (mkVideo 1 1) sample_context))).
Defined.

(** *** The overlay after a stop *)

(** X16.  Stopping freezes the overlay, it does not blank it.  The page
    passes [isProcessing] as [isLive]; while it is true, the effect that
    follows a render with a new snapshot repaints the canvas with the boxes
    of that snapshot and requests the next frame.  [stopTracking] empties
    the tracked objects and lowers [isProcessing], so the effect that
    follows it cancels the pending animation frame and draws nothing:
    whatever was painted stays on the canvas, and no later animation frame
    changes it. *)
Theorem stop_freezes_overlay (s : State) (videoRef : option Video)
    (o : Overlay) :
  let stopped :=
    overlay_effect (isProcessing (stopTracking s)) videoRef
      (trackedObjects (stopTracking s)) o in
  (forall canvas ctx video,
     isProcessing s = true ->
     canvasRef o = Some canvas ->
     getContext canvas = Some ctx ->
     videoWidth video <> 0%N ->
     videoHeight video <> 0%N ->
     let live :=
       overlay_effect (isProcessing s) (Some video) (trackedObjects s) o in
     stroked_boxes (painted live) = map box_corners (trackedObjects s)
     /\ pending live = Some (trackedObjects s))
  /\ trackedObjects (stopTracking s) = []
  /\ painted stopped = painted o
  /\ canvasRef stopped = canvasRef o
  /\ pending stopped = None
  /\ (forall video, animation_frame video stopped = stopped).
Proof.
  intros stopped.
  destruct (stopTracking_facts s) as (Hobjs & _).
  destruct (stopTracking_resets s) as (_ & Hproc & _).
  assert (stopped = mkOverlay (canvasRef o) (painted o) None) as Hs.
  { subst stopped. unfold overlay_effect. rewrite Hproc. reflexivity. }
  split; [|split; [|split; [|split; [|split]]]].
  - intros canvas ctx video Hlive Hcanvas Hctx Hw Hh live.
    subst live. unfold overlay_effect, redraw. rewrite Hlive.
    cbn [canvasRef painted]. rewrite Hcanvas.
    destruct (stroked_boxes_of_draw canvas video ctx (trackedObjects s) Hctx)
      as (canvas' & ops & -> & _ & _ & Hboxes).
    cbn [painted pending]. split; [exact (Hboxes Hw Hh) | reflexivity].
  - exact Hobjs.
  - rewrite Hs. reflexivity.
  - rewrite Hs. reflexivity.
  - rewrite Hs. reflexivity.
  - intros video. rewrite Hs. reflexivity.
Qed.

Lemma stop_freezes_overlay_witness :
  let s := run accept_all sample_config
             [StartTracking 0; WsOpen 0;
              WsMessage 0 (results [sample_object]) 5] (mount 0) in
  let o := mkOverlay (Some (mkCanvas 300 150 (Some sample_context))) [] None in
  let live :=
    overlay_effect (isProcessing s) (Some (mkVideo 640 480))
      (trackedObjects s) o in
  let stopped :=
    overlay_effect (isProcessing (stopTracking s)) (Some (mkVideo 640 480))
      (trackedObjects (stopTracking s)) live in
  trackedObjects (stopTracking s) = []
  /\ stroked_boxes (painted stopped) = [box_corners sample_object]
  /\ animation_frame (Some (mkVideo 640 480)) stopped = stopped.
Proof.
  intros s o live stopped.
  assert (640 <> 0)%N as Hw by discriminate.
  assert (480 <> 0)%N as Hh by discriminate.
  destruct (stop_freezes_overlay s (Some (mkVideo 640 480)) o)
    as (Hlive & _).
  destruct (Hlive (mkCanvas 300 150 (Some sample_context)) sample_context
              (mkVideo 640 480) eq_refl eq_refl eq_refl Hw Hh)
    as (Hboxes & _).
  destruct (stop_freezes_overlay s (Some (mkVideo 640 480)) live)
    as (_ & Hobjs & Hpainted & _ & _ & Hframe).
  split; [exact Hobjs|]. split; [|apply Hframe].
  fold live in Hboxes. fold stopped in Hpainted.
  rewrite Hpainted, Hboxes. reflexivity.
Defined.

(** *** Corner accents *)

Lemma corner_length_bounds (w h : num) :
  (num_of_Z 0 <= w)%Qc -> (num_of_Z 0 <= h)%Qc ->
  let cl := (Math_min w h * Q2Qc (2 # 10))%Qc in
  (0 <= this cl)%Q /\ (this cl <= this w)%Q /\ (this cl <= this h)%Q.
Proof.
  intros Hw Hh cl. subst cl. unfold Qcle in *.
  change (this (num_of_Z 0)) with 0%Q in *. rewrite this_mult.
  change (this (Q2Qc (2 # 10))) with (1 # 5)%Q.
  unfold Math_min. destruct (Qc_lt_dec h w) as [Hlt|Hge].
  - unfold Qclt in Hlt. lra.
  - apply Qcnot_lt_le in Hge. unfold Qcle in Hge. lra.
Qed.

(** X27.  For a box with [x1 <= x2] and [y1 <= y2] drawn with non-negative
    scale factors, the four corner accents stay on the box: each of the
    twelve points their paths go through lies within the scaled rectangle. *)
Theorem corner_accents_inside (sx sy : num) (obj : TrackedObject)
    (x1 y1 x2 y2 : num) :
  bbox obj = (x1, y1, x2, y2) ->
  (x1 <= x2)%Qc -> (y1 <= y2)%Qc ->
  (num_of_Z 0 <= sx)%Qc -> (num_of_Z 0 <= sy)%Qc ->
  length (path_points (draw_corners sx sy obj)) = 12%nat
  /\ Forall (fun p =>
               ((x1 * sx <= fst p)%Qc /\ (fst p <= x2 * sx)%Qc)
               /\ ((y1 * sy <= snd p)%Qc /\ (snd p <= y2 * sy)%Qc))
            (path_points (draw_corners sx sy obj)).
Proof.
  intros Hb Hx Hy Hsx Hsy.
  pose proof (Qcmult_le_compat_r _ _ _ Hx Hsx) as Hab.
  pose proof (Qcmult_le_compat_r _ _ _ Hy Hsy) as Hcd.
  unfold draw_corners, scaled_bbox. rewrite Hb.
  set (a := (x1 * sx)%Qc) in *. set (b := (x2 * sx)%Qc) in *.
  set (c := (y1 * sy)%Qc) in *. set (d := (y2 * sy)%Qc) in *.
  destruct (corner_length_bounds (b - a)%Qc (d - c)%Qc) as (H0 & Hw & Hh).
  { unfold Qcle in *. change (this (num_of_Z 0)) with 0%Q.
    rewrite this_minus. lra. }
  { unfold Qcle in *. change (this (num_of_Z 0)) with 0%Q.
    rewrite this_minus. lra. }
  set (cl := (Math_min (b - a) (d - c) * Q2Qc (2 # 10))%Qc) in *.
  rewrite this_minus in Hw, Hh. unfold Qcle in Hab, Hcd.
  split; [reflexivity|].
  unfold path_points. cbn [omap list_omap].
  repeat constructor; cbn [fst snd]; unfold Qcle;
    rewrite ?this_plus, ?this_minus; lra.
Qed.

Lemma corner_accents_inside_witness :
  Forall (fun p =>
            ((num_of_Z 100 * num_of_Z 1 <= fst p)%Qc
             /\ (fst p <= num_of_Z 200 * num_of_Z 1)%Qc)
            /\ ((num_of_Z 50 * num_of_Z 1 <= snd p)%Qc
                /\ (snd p <= num_of_Z 150 * num_of_Z 1)%Qc))
         (path_points (draw_corners (num_of_Z 1) (num_of_Z 1) sample_object)).
Proof.
  refine (proj2 (corner_accents_inside (num_of_Z 1) (num_of_Z 1) sample_object
                   (num_of_Z 100) (num_of_Z 50) (num_of_Z 200) (num_of_Z 150)
                   eq_refl _ _ _ _)); vm_compute; discriminate.
Defined.

(** X28.  Restarting the camera stops before it starts.  With the page's
    wiring the tracker sees [stopTracking] and then, only if the camera is
    granted again, [startTracking]: from a session in which every socket but
    the current one is closing or closed this leaves at most one live
    connection, and with every other stream already stopped the only live
    camera tracks are those of the new stream. *)
Theorem camera_restart (url_accepted : string -> bool)
    (config : TrackingConfig) (now : Z)
    (media : LiveStreamCapture.UserMedia)
    (c : LiveStreamCapture.Capture) (s : State) :
  let result :=
    LiveStreamCapture.restartStream
      (startTracking url_accepted config now) stopTracking media c s in
  others_closed s ->
  (forall i tracks,
     LiveStreamCapture.streams c !! i = Some tracks ->
     LiveStreamCapture.streamRef c <> Some i ->
     Forall (fun live => live = false) tracks) ->
  (live_connections (snd result) <= 1)%nat
  /\ (media = LiveStreamCapture.Denied ->
      snd result = stopTracking s
      /\ LiveStreamCapture.isStreaming (fst result) = false
      /\ LiveStreamCapture.live_tracks (fst result) = 0%nat)
  /\ (forall tracks, media = LiveStreamCapture.Granted tracks ->
        snd result
        = startTracking url_accepted config now (stopTracking s)
        /\ LiveStreamCapture.isStreaming (fst result) = true
        /\ LiveStreamCapture.live_tracks (fst result) = tracks).
Proof.
  intros result Hs Hc. subst result.
  unfold LiveStreamCapture.restartStream, LiveStreamCapture.stopStream,
    LiveStreamCapture.startStream_begin.
  cbv zeta.
  pose proof (no_live_after_stop _ _ Hc) as Hdead.
  pose proof (stopTracking_quiet s Hs) as Hq.
  split; [|split].
  - unfold live_connections. destruct media as [|tracks]; cbn [snd fst
      LiveStreamCapture.startStream_resume].
    + rewrite none_live; [simpl; lia|].
      intros i ws Hi. unfold quiet in Hq. rewrite Forall_lookup in Hq. eauto.
    + apply (at_most_one_live _
               (wsRef (startTracking url_accepted config now (stopTracking s)))).
      apply startTracking_others_closed;
        [apply quiet_others_closed, Hq | apply stopTracking_idle].
  - intros ->. cbn [snd fst LiveStreamCapture.startStream_resume
                    LiveStreamCapture.startStream_begin
                    LiveStreamCapture.isStreaming].
    split; [reflexivity|]. split; [reflexivity|].
    unfold LiveStreamCapture.live_tracks. cbn [LiveStreamCapture.streams].
    rewrite Hdead. reflexivity.
  - intros tracks ->. cbn [snd fst LiveStreamCapture.startStream_resume
                           LiveStreamCapture.startStream_begin
                           LiveStreamCapture.isStreaming].
    split; [reflexivity|]. split; [reflexivity|].
    unfold LiveStreamCapture.live_tracks. cbn [LiveStreamCapture.streams].
    rewrite concat_app, filter_app, Hdead. cbn [concat app].
    rewrite app_nil_r, filter_all_live. apply length_replicate.
Qed.

Lemma camera_restart_witness :
  let start := LiveStreamCapture.startStream_resume
                 (startTracking accept_all sample_config 0)
                 (LiveStreamCapture.Granted 1)
                 (LiveStreamCapture.startStream_begin
                    (LiveStreamCapture.initial true)) (mount 0) in
  let again := LiveStreamCapture.restartStream
                 (startTracking accept_all sample_config 5) stopTracking
                 (LiveStreamCapture.Granted 1)
                 (fst start) (deliver_open 0 (snd start)) in
  map readyState (sockets (snd again)) = [CLOSING; CONNECTING]
  /\ (live_connections (snd again) <= 1)%nat
  /\ LiveStreamCapture.live_tracks (fst again) = 1%nat.
Proof.
  intros start again. split; [reflexivity|].
  destruct (camera_restart accept_all sample_config 5
              (LiveStreamCapture.Granted 1) (fst start)
              (deliver_open 0 (snd start))) as (Hl & _ & Hg).
  - intros w ws Hw Hne.
    destruct w as [|w]; [contradiction Hne; reflexivity | discriminate Hw].
  - intros i tracks Hi Hne.
    destruct i as [|i]; [contradiction Hne; reflexivity | discriminate Hi].
  - split; [exact Hl|]. apply (Hg 1%nat eq_refl).
Defined.
